(** * Question-answering notebook: answer-window scorer and its callers

    A shallow embedding of the Python cells of
    [notebooks/213-question-answering/213-question-answering.ipynb]:
    [prepare_input], [postprocess], [find_best_answer_window] and
    [get_best_answer].

    Conventions.
    - Python integers are [Z]; positions inside a list are [nat].
    - NumPy float arrays are lists of exact rationals [Q]: the properties
      below are about which entry wins a comparison, not about rounding.
    - A NumPy 2-D array is its shape together with its row-major buffer.
    - A raised Python exception is the [Raise] branch of [result]. *)

From Stdlib Require Import ZArith QArith Lia Lqa.
From stdpp Require Import base list gmap strings.

Local Open Scope nat_scope.

(** ** Exceptions *)

Inductive exn : Type :=
  | ValueError
  | IndexError
  | ZeroDivisionError.

Inductive result (A : Type) : Type :=
  | Ok (a : A)
  | Raise (e : exn).

Arguments Ok {A} a.
Arguments Raise {A} e.

Global Instance result_ret : MRet result := fun _ a => Ok a.
Global Instance result_bind : MBind result := fun _ _ f c =>
  match c with
  | Ok a => f a
  | Raise e => Raise e
  end.

(** ** Python and NumPy primitives *)

Module Py.

(** Clamping of one slice bound, as [PySlice_AdjustIndices] does for a
    step of 1: a negative bound counts from the end, then the bound is
    clipped to [0, n]. *)
Definition slice_bound (n : nat) (k : Z) : nat :=
  if (k <? 0)%Z then Z.to_nat (Z.max (k + Z.of_nat n) 0)
  else Nat.min (Z.to_nat k) n.

(** [l[start:stop]] *)
Definition slice {A} (l : list A) (start stop : Z) : list A :=
  let a := slice_bound (length l) start in
  let b := slice_bound (length l) stop in
  take (b - a) (drop a l).

(** [l[k]] on a Python list: negative indices count from the end, an
    index out of range raises [IndexError]. *)
Definition getitem {A} (l : list A) (k : Z) : result A :=
  let n := Z.of_nat (length l) in
  let k' := if (k <? 0)%Z then (k + n)%Z else k in
  if (k' <? 0)%Z || (n <=? k')%Z then Raise IndexError
  else match l !! Z.to_nat k' with
       | Some x => Ok x
       | None => Raise IndexError
       end.

(** [divmod(a, b)] on integers (floor division). *)
Definition divmod (a b : Z) : result (Z * Z) :=
  if (b =? 0)%Z then Raise ZeroDivisionError
  else Ok ((a / b)%Z, (a mod b)%Z).

End Py.

Module Np.

(** A 2-D array: [data] is the row-major buffer, of length [rows * cols]. *)
Record ndarray2 : Type := Array2 { rows : nat; cols : nat; data : list Q }.

(** Shape arithmetic of [reshape((d0, d1))] on an array of [size]
    elements.  One dimension may be [-1] and is then inferred from the
    size; any other negative dimension, or a shape whose size differs from
    the array's, raises [ValueError]. *)
Definition reshape_shape (size : nat) (d0 d1 : Z) : result (nat * nat) :=
  let size := Z.of_nat size in
  if (d0 <? -1)%Z || (d1 <? -1)%Z then Raise ValueError
  else if (d0 =? -1)%Z then
    if (d1 =? -1)%Z then Raise ValueError
    else if (d1 =? 0)%Z || negb (size mod d1 =? 0)%Z then Raise ValueError
    else Ok (Z.to_nat (size / d1), Z.to_nat d1)
  else if (d1 =? -1)%Z then
    if (d0 =? 0)%Z || negb (size mod d0 =? 0)%Z then Raise ValueError
    else Ok (Z.to_nat d0, Z.to_nat (size / d0))
  else if (d0 * d1 =? size)%Z then Ok (Z.to_nat d0, Z.to_nat d1)
  else Raise ValueError.

(** [v.reshape((d0, d1))] of a 1-D array: same buffer, new shape. *)
Definition reshape (v : list Q) (d0 d1 : Z) : result ndarray2 :=
  '(r, c) ← reshape_shape (length v) d0 d1;
  mret (Array2 r c v).

(** Row-major buffer of the product of a column by a row: entry [(i, j)]
    is [col[i] * row[j]]. *)
Definition outer (col row : list Q) : list Q :=
  flat_map (fun a => map (fun b => (a * b)%Q) row) col.

(** [np.matmul(a, b)] for a column [a] of shape [(n, 1)] and a row [b] of
    shape [(1, m)], the only shapes the scorer builds: the inner dimension
    is 1, so each entry of the [(n, m)] result is a single product.  Inner
    dimensions that differ raise [ValueError]. *)
Definition matmul (a b : ndarray2) : result ndarray2 :=
  if negb (cols a =? rows b) then Raise ValueError
  else if negb (cols a =? 1) then Raise ValueError
  else Ok (Array2 (rows a) (cols b) (outer (data a) (data b))).

(** Keep the entries selected by [keep i j], zero the others:
    [np.where(mask, m, 0)] over the whole buffer. *)
Definition mask_where (keep : nat -> nat -> bool) (m : ndarray2) : ndarray2 :=
  Array2 (rows m) (cols m)
    (imap (fun p x => if keep (p / cols m) (p mod cols m) then x else 0%Q) (data m)).

(** [np.triu(m, k)]: entries with [j - i < k] are zeroed. *)
Definition triu (m : ndarray2) (k : Z) : ndarray2 :=
  mask_where (fun i j => (k <=? Z.of_nat j - Z.of_nat i)%Z) m.

(** [np.tril(m, k)]: entries with [j - i > k] are zeroed. *)
Definition tril (m : ndarray2) (k : Z) : ndarray2 :=
  mask_where (fun i j => (Z.of_nat j - Z.of_nat i <=? k)%Z) m.

(** [m.flatten()] *)
Definition flatten (m : ndarray2) : list Q := data m.

(** Strict comparison of two scores. *)
Definition Qltb (x y : Q) : bool := negb (Qle_bool y x).

(** Left-to-right scan keeping the first largest entry seen so far. *)
Fixpoint argmax_from (best : Q) (besti : nat) (i : nat) (l : list Q) : nat :=
  match l with
  | [] => besti
  | x :: l' =>
      if Qltb best x then argmax_from x i (S i) l'
      else argmax_from best besti (S i) l'
  end.

(** [v.argmax()]: index of the first maximum; an empty array raises
    [ValueError]. *)
Definition argmax (v : list Q) : result nat :=
  match v with
  | [] => Raise ValueError
  | x :: v' => Ok (argmax_from x 0 1 v')
  end.

(** [m[i, j]] with NumPy's index rules: negative indices wrap, anything
    out of bounds raises [IndexError]. *)
Definition getitem2 (m : ndarray2) (i j : Z) : result Q :=
  let r := Z.of_nat (rows m) in
  let c := Z.of_nat (cols m) in
  let i' := if (i <? 0)%Z then (i + r)%Z else i in
  let j' := if (j <? 0)%Z then (j + c)%Z else j in
  if (i' <? 0)%Z || (r <=? i')%Z || (j' <? 0)%Z || (c <=? j')%Z
  then Raise IndexError
  else match data m !! (Z.to_nat i' * cols m + Z.to_nat j') with
       | Some x => Ok x
       | None => Raise IndexError
       end.

End Np.

(** ** The scorer *)

(** [find_best_answer_window(start_score, end_score, context_start_idx,
    context_end_idx)] *)
Definition find_best_answer_window (start_score end_score : list Q)
    (context_start_idx context_end_idx : Z) : result (Q * Z * Z) :=
  let context_len := (context_end_idx - context_start_idx)%Z in
  a ← Np.reshape (Py.slice start_score context_start_idx context_end_idx)
        context_len 1;
  b ← Np.reshape (Py.slice end_score context_start_idx context_end_idx)
        1 context_len;
  score_mat ← Np.matmul a b;
  (* reset candidates with end before start *)
  let score_mat := Np.triu score_mat 0 in
  (* reset long candidates (>16 words) *)
  let score_mat := Np.tril score_mat 16 in
  (* find the best start-end pair *)
  k ← Np.argmax (Np.flatten score_mat);
  '(max_s, max_e) ← Py.divmod (Z.of_nat k) (Z.of_nat (Np.cols score_mat));
  max_score ← Np.getitem2 score_mat max_s max_e;
  mret (max_score, max_s, max_e).


(** ** Pre- and post-processing around the scorer *)

(** The int32 conversion of [np.array(..., dtype=np.int32)], with its
    wrap-around written out. *)
Definition int32 (z : Z) : Z := ((z + 2 ^ 31) mod 2 ^ 32 - 2 ^ 31)%Z.

(** [np.array([row], dtype=np.int32)]: a 2-D array with a single row. *)
Definition int32_row (row : list Z) : list (list Z) := [int32 <$> row].

(** [np.arange(n)] *)
Definition arange (n : nat) : list Z := Z.of_nat <$> seq 0 n.

Section Notebook.

(** Globals of the notebook and its external collaborators: the two
    special tokens read from the vocabulary, the exponential applied by
    the softmax, [str.lower], the tokenizer [tokens.text_to_tokens] and
    the inference request, which maps the input dictionary to the rows
    [output_s.data[0]] and [output_e.data[0]]. *)
Variable cls_token sep_token : Z.
Variable exp : Q -> Q.
Variable lower : string -> string.
Variable text_to_tokens : string -> gmap string Z -> list Z * list (Z * Z).
Variable infer : gmap string (list (list Z)) -> list Q * list Q.

(** [prepare_input(question_tokens, context_tokens, input_keys)];
    [input_keys] is given by the names [i_key.any_name]. *)
Definition prepare_input (question_tokens context_tokens : list Z)
    (input_keys : list string) : gmap string (list (list Z)) :=
  let input_ids :=
    [cls_token] ++ question_tokens ++ [sep_token] ++ context_tokens ++ [sep_token] in
  (* 1 for any index *)
  let attention_mask := replicate (length input_ids) 1%Z in
  (* 0 for question tokens, 1 for context part *)
  let token_type_ids :=
    replicate (length question_tokens + 2) 0%Z
      ++ replicate (length context_tokens + 1) 1%Z in
  let input_dict : gmap string (list (list Z)) :=
    <["token_type_ids" := int32_row token_type_ids]>
      (<["attention_mask" := int32_row attention_mask]>
        (<["input_ids" := int32_row input_ids]> ∅)) in
  (* some models require additional position_ids *)
  if bool_decide ("position_ids" ∈ input_keys)
  then <["position_ids" := int32_row (arange (length input_ids))]> input_dict
  else input_dict.

(** The inner [get_score] of [postprocess]: softmax along the last axis. *)
Definition get_score (logits : list Q) : list Q :=
  let out := exp <$> logits in
  let total := foldr Qplus 0%Q out in
  (fun x => (x / total)%Q) <$> out.

(** [postprocess(output_start, output_end, question_tokens,
    context_tokens_start_end, input_size)] *)
Definition postprocess (output_start output_end : list Q)
    (question_tokens : list Z) (context_tokens_start_end : list (Z * Z))
    (input_size : Z) : result (Q * Z * Z) :=
  (* get start-end scores for context *)
  let score_start := get_score output_start in
  let score_end := get_score output_end in
  (* index of first context token in tensor *)
  let context_start_idx := (Z.of_nat (length question_tokens) + 2)%Z in
  (* index of last+1 context token in tensor *)
  let context_end_idx := (input_size - 1)%Z in
  (* find product of all start-end combinations to find the best one *)
  '(max_score, max_start, max_end) ←
    find_best_answer_window score_start score_end context_start_idx context_end_idx;
  (* convert to context text start-end index *)
  s ← Py.getitem context_tokens_start_end max_start;
  e ← Py.getitem context_tokens_start_end max_end;
  mret (max_score, s.1, e.2).

(** The index conversion as the specification words it: the window is
    first shifted by [context_start_idx] to full-sequence token indices,
    and those are looked up in the span map.  Kept only to be compared
    with [postprocess]. *)
Definition postprocess_as_specified (output_start output_end : list Q)
    (question_tokens : list Z) (context_tokens_start_end : list (Z * Z))
    (input_size : Z) : result (Q * Z * Z) :=
  let score_start := get_score output_start in
  let score_end := get_score output_end in
  let context_start_idx := (Z.of_nat (length question_tokens) + 2)%Z in
  let context_end_idx := (input_size - 1)%Z in
  '(max_score, max_start, max_end) ←
    find_best_answer_window score_start score_end context_start_idx context_end_idx;
  s ← Py.getitem context_tokens_start_end (context_start_idx + max_start)%Z;
  e ← Py.getitem context_tokens_start_end (context_start_idx + max_end)%Z;
  mret (max_score, s.1, e.2).

(** [context[a:b]] on a string. *)
Definition str_slice (s : string) (a b : Z) : string :=
  String.string_of_list_ascii (Py.slice (String.list_ascii_of_string s) a b).

(** [get_best_answer(question, context, vocab, input_keys)] *)
Definition get_best_answer (question context : string) (vocab : gmap string Z)
    (input_keys : list string) : result (string * Q) :=
  (* convert context string to tokens *)
  let '(context_tokens, context_tokens_start_end) :=
    text_to_tokens (lower context) vocab in
  (* convert question string to tokens *)
  let '(question_tokens, _) := text_to_tokens (lower question) vocab in
  let network_input := prepare_input question_tokens context_tokens input_keys in
  let input_size :=
    (Z.of_nat (length context_tokens) + Z.of_nat (length question_tokens) + 3)%Z in
  (* openvino inference *)
  let '(output_s, output_e) := infer network_input in
  (* postprocess the result getting the score and context range for the answer *)
  score_start_end ←
    postprocess output_s output_e question_tokens context_tokens_start_end input_size;
  (* return the part of the context, which is already an answer *)
  mret (str_slice context score_start_end.1.2 score_start_end.2, score_start_end.1.1).

End Notebook.

(** ** The scorer over a store of array buffers

    NumPy arrays are references: a basic slice and a [reshape] are views
    on the buffer of the array they come from, while [matmul], [triu],
    [tril] and [flatten] allocate a buffer for their result.  This second
    reading of the scorer threads the store of buffers through every
    call, so that what happens to the caller's arrays can be stated. *)

Module Store.

(** A 1-D array: [len1] elements of buffer [base1], from [off1] on. *)
Record array1 : Type := View1 { base1 : nat; off1 : nat; len1 : nat }.

(** A 2-D array, row-major and contiguous in buffer [base2]. *)
Record array2 : Type :=
  View2 { base2 : nat; off2 : nat; rows2 : nat; cols2 : nat }.

(** A computation reads and extends the store (a buffer is addressed by
    its position in it) and returns a value or raises. *)
Definition St (A : Type) : Type := list (list Q) -> list (list Q) * result A.

Global Instance St_ret : MRet St := fun _ a h => (h, Ok a).
Global Instance St_bind : MBind St := fun _ _ f c h =>
  match c h with
  | (h', Ok a) => f a h'
  | (h', Raise e) => (h', Raise e)
  end.

Definition lift {A} (r : result A) : St A := fun h => (h, r).

(** Read [n] elements of buffer [b] from offset [off]. *)
Definition load (b off n : nat) : St (list Q) :=
  fun h => (h, Ok (take n (drop off (default [] (h !! b))))).

(** Allocate a fresh buffer; its address is returned. *)
Definition alloc (buf : list Q) : St nat :=
  fun h => (h ++ [buf], Ok (length h)).

(** The elements a 1-D array denotes in a store. *)
Definition contents (h : list (list Q)) (v : array1) : list Q :=
  take (len1 v) (drop (off1 v) (default [] (h !! base1 v))).

(** The array lies inside an allocated buffer. *)
Definition in_bounds (h : list (list Q)) (v : array1) : Prop :=
  exists buf, h !! base1 v = Some buf /\ off1 v + len1 v <= length buf.

(** [v[start:stop]]: a view, nothing is copied. *)
Definition slice (v : array1) (start stop : Z) : array1 :=
  let a := Py.slice_bound (len1 v) start in
  let b := Py.slice_bound (len1 v) stop in
  View1 (base1 v) (off1 v + a) (b - a).

(** [v.reshape((d0, d1))]: a view on the same buffer. *)
Definition reshape (v : array1) (d0 d1 : Z) : St array2 :=
  '(r, c) ← lift (Np.reshape_shape (len1 v) d0 d1);
  mret (View2 (base1 v) (off1 v) r c).

Definition load2 (m : array2) : St Np.ndarray2 :=
  d ← load (base2 m) (off2 m) (rows2 m * cols2 m);
  mret (Np.Array2 (rows2 m) (cols2 m) d).

Definition store2 (m : Np.ndarray2) : St array2 :=
  l ← alloc (Np.data m);
  mret (View2 l 0 (Np.rows m) (Np.cols m)).

Definition matmul (a b : array2) : St array2 :=
  x ← load2 a;
  y ← load2 b;
  m ← lift (Np.matmul x y);
  store2 m.

Definition triu (m : array2) (k : Z) : St array2 :=
  x ← load2 m;
  store2 (Np.triu x k).

Definition tril (m : array2) (k : Z) : St array2 :=
  x ← load2 m;
  store2 (Np.tril x k).

(** [m.flatten()] always returns a copy. *)
Definition flatten (m : array2) : St array1 :=
  x ← load2 m;
  l ← alloc (Np.flatten x);
  mret (View1 l 0 (length (Np.flatten x))).

Definition argmax (v : array1) : St nat :=
  d ← load (base1 v) (off1 v) (len1 v);
  lift (Np.argmax d).

Definition getitem2 (m : array2) (i j : Z) : St Q :=
  x ← load2 m;
  lift (Np.getitem2 x i j).

Definition find_best_answer_window (start_score end_score : array1)
    (context_start_idx context_end_idx : Z) : St (Q * Z * Z) :=
  let context_len := (context_end_idx - context_start_idx)%Z in
  a ← reshape (slice start_score context_start_idx context_end_idx)
        context_len 1;
  b ← reshape (slice end_score context_start_idx context_end_idx)
        1 context_len;
  score_mat ← matmul a b;
  score_mat ← triu score_mat 0;
  score_mat ← tril score_mat 16;
  flat ← flatten score_mat;
  k ← argmax flat;
  '(max_s, max_e) ← lift (Py.divmod (Z.of_nat k) (Z.of_nat (cols2 score_mat)));
  max_score ← getitem2 score_mat max_s max_e;
  mret (max_score, max_s, max_e).

End Store.

(** ** Loading the context and the interactive loop *)

(** The line break of ["\n".join(...)]. *)
Definition newline : string := String (Ascii.ascii_of_nat 10) EmptyString.

(** Truth value of a Python string: the empty string is false. *)
Definition truthy (s : string) : bool := negb (String.eqb s "").

(** What one run reads and writes: the lines still to be read by
    [input()], the strings printed so far (one per [print] call) and the
    number of [time.perf_counter()] readings taken. *)
Record world : Type :=
  World { stdin : list string; stdout : list string; clock : nat }.

(** How a run ends: it returns, an exception of the answer pipeline
    escapes, or [input()] finds the input exhausted. *)
Inductive outcome : Type :=
  | Returned
  | Raised (e : exn)
  | EOFError.

Section Interactive.

(** The globals and collaborators of [get_best_answer], and those of the
    two functions below: the vocabulary and the model's input names, the
    [(scheme, netloc)] fields of [parse.urlparse], the paragraph reader
    [reader.get_paragraphs], the successive readings of
    [time.perf_counter()], the float format [:.2f] and the text Python
    prints for the list [sources]. *)
Variable cls_token sep_token : Z.
Variable exp : Q -> Q.
Variable lower : string -> string.
Variable text_to_tokens : string -> gmap string Z -> list Z * list (Z * Z).
Variable infer : gmap string (list (list Z)) -> list Q * list Q.
Variable vocab : gmap string Z.
Variable input_keys : list string.
Variable urlparse : string -> string * string.
Variable get_paragraphs : list string -> list string.
Variable perf_counter : nat -> Q.
Variable format_2f : Q -> string.
Variable format_sources : list string -> string.

(** [all([result.scheme, result.netloc])] *)
Definition is_url (source : string) : bool :=
  let '(scheme, netloc) := urlparse source in
  truthy scheme && truthy netloc.

(** [load_context(sources)] *)
Definition load_context (sources : list string) : string :=
  let '(input_urls, paragraphs) :=
    foldl (fun '(input_urls, paragraphs) source =>
             if is_url source
             then (input_urls ++ [source], paragraphs)
             else (input_urls, paragraphs ++ [source]))
          ([], []) sources in
  let paragraphs := paragraphs ++ get_paragraphs input_urls in
  (* produce one big context string *)
  String.concat newline paragraphs.

(** The four lines printed for an answered question. *)
Definition answer_lines (question answer : string) (score start_time end_time : Q)
    : list string :=
  ["Question: " +:+ question;
   "Answer: " +:+ answer;
   "Score: " +:+ format_2f score;
   "Time: " +:+ format_2f (end_time - start_time)%Q +:+ "s"].

(** The [while True] loop of [run_question_answering], by recursion on
    the lines [input()] has left. *)
Fixpoint question_loop (context : string) (lines out : list string) (ticks : nat)
    : world * outcome :=
  match lines with
  | [] => (World [] out ticks, EOFError)
  | question :: rest =>
      (* if no question - break *)
      if String.eqb question "" then (World rest out ticks, Returned)
      else
        (* measure processing time *)
        let start_time := perf_counter ticks in
        match get_best_answer cls_token sep_token exp lower text_to_tokens infer
                question context vocab input_keys with
        | Raise e => (World rest out (S ticks), Raised e)
        | Ok (answer, score) =>
            let end_time := perf_counter (S ticks) in
            question_loop context rest
              (out ++ answer_lines question answer score start_time end_time)
              (S (S ticks))
        end
  end.

(** [run_question_answering(sources)] *)
Definition run_question_answering (sources : list string) (w : world)
    : world * outcome :=
  let out := stdout w ++ ["Context: " +:+ format_sources sources] in
  let context := load_context sources in
  if String.length context =? 0
  then (World (stdin w) (out ++ ["Error: Empty context or outside paragraphs"])
          (clock w), Returned)
  else question_loop context (stdin w) out (clock w).

End Interactive.

(** ** The three best classes of the classification notebook

    The cells of [103-paddle-onnx-to-openvino-classification.ipynb] that
    pick the three largest softmax values. *)

Section Classification.

(** [np.argsort]: the indices that sort an array in ascending order. *)
Variable argsort : list Q -> list nat.

(** [top_indices = np.argsort(softmax_result)[-3:][::-1]] *)
Definition top_indices (softmax_result : list Q) : list nat :=
  let order := argsort softmax_result in
  reverse (Py.slice order (-3) (Z.of_nat (length order))).

(** [a[indices]] for an array of indices: each one is looked up in turn,
    and one out of bounds raises [IndexError]. *)
Fixpoint take_indices (a : list Q) (indices : list nat) : result (list Q) :=
  match indices with
  | [] => Ok []
  | i :: rest =>
      x ← Py.getitem a (Z.of_nat i);
      xs ← take_indices a rest;
      mret (x :: xs)
  end.

(** [top_softmax = softmax_result[top_indices]] *)
Definition top_softmax (softmax_result : list Q) : result (list Q) :=
  take_indices softmax_result (top_indices softmax_result).

End Classification.

(** [order] lists every position of [v] once, by ascending value. *)
Definition sorts_ascending (v : list Q) (order : list nat) : Prop :=
  order ≡ₚ seq 0 (length v)
  /\ forall a b i j, a <= b -> order !! a = Some i -> order !! b = Some j ->
       (default 0 (v !! i) <= default 0 (v !! j))%Q.

(** ** Vocabulary of the statements *)

(** [v[k]] for an index known to be in range; 0 outside. *)
Definition score_at (v : list Q) (k : Z) : Q := default 0%Q (v !! Z.to_nat k).

(** Score of the window from context-local token [i] to token [j]. *)
Definition window_score (start_score end_score : list Q)
    (context_start_idx i j : Z) : Q :=
  (score_at start_score (context_start_idx + i)
   * score_at end_score (context_start_idx + j))%Q.

(** The candidate windows of a context of [context_len] tokens: end not
    before start, and at most 16 positions after it. *)
Definition valid_pair (context_len i j : Z) : Prop :=
  (0 <= i /\ i <= j /\ j < context_len /\ j - i <= 16)%Z.

(** The window, shifted back to the full token sequence, lies in the
    context region and is not longer than the cap. *)
Definition window_in_context (cs ce i j : Z) : Prop :=
  (cs <= cs + i /\ cs + i <= cs + j /\ cs + j < ce /\ j - i <= 16)%Z.

(** Row-major (lexicographic) order on index pairs. *)
Definition lex_lt (p q : Z * Z) : Prop :=
  (p.1 < q.1 \/ (p.1 = q.1 /\ p.2 < q.2))%Z.

(** Number of tokens of the window from token [i] to token [j], both
    included: [postprocess] takes the first character of token [i] and the
    last character of token [j]. *)
Definition tokens_covered (i j : Z) : Z := (j - i + 1)%Z.

Definition non_negative (v : list Q) : Prop := Forall (fun x => (0 <= x)%Q) v.

Definition uniform (v : list Q) (a : Q) : Prop := Forall (fun x => (x == a)%Q) v.

(** [k] is the position of the first largest entry of [l]. *)
Definition is_first_max (l : list Q) (k : nat) : Prop :=
  exists y, l !! k = Some y
    /\ (forall q x, l !! q = Some x -> (x <= y)%Q)
    /\ (forall q x, q < k -> l !! q = Some x -> (x < y)%Q).

(** The flattened score matrix of a column of start scores and a row of
    end scores, after both masks. *)
Definition masked (col row : list Q) : list Q :=
  Np.data (Np.tril (Np.triu
    (Np.Array2 (length col) (length row) (Np.outer col row)) 0) 16).

(** Entry [p] of [masked col row], in closed form. *)
Definition entry (col row : list Q) (p : nat) : Q :=
  let i := p / length row in
  let j := p mod length row in
  if (Z.of_nat j - Z.of_nat i <=? 16)%Z then
    if (0 <=? Z.of_nat j - Z.of_nat i)%Z then
      Qmult (default 0%Q (col !! i)) (default 0%Q (row !! j))
    else 0%Q
  else 0%Q.

(** The shapes the two [reshape] calls accept: the slices have exactly
    [context_len] elements, or [context_len] is the wildcard [-1]. *)
Definition shapes_fit (start_score end_score : list Q) (cs ce : Z) : Prop :=
  (ce - cs = -1
   \/ (ce - cs = Z.of_nat (length (Py.slice start_score cs ce))
       /\ ce - cs = Z.of_nat (length (Py.slice end_score cs ce))))%Z.


(** Sum of the entries of an array. *)
Definition total (l : list Q) : Q := foldr Qplus 0%Q l.

(** What the loop of [run_question_answering] prints for the questions
    [questions], asked in turn from clock reading [ticks] on, as long as
    each of them is answered. *)
Fixpoint transcript (answer_question : string -> result (string * Q))
    (perf_counter : nat -> Q) (format_2f : Q -> string)
    (questions : list string) (ticks : nat) : list string :=
  match questions with
  | [] => []
  | question :: rest =>
      match answer_question question with
      | Ok (answer, score) =>
          answer_lines format_2f question answer score
            (perf_counter ticks) (perf_counter (S ticks))
          ++ transcript answer_question perf_counter format_2f rest (S (S ticks))
      | Raise _ => []
      end
  end.

(** The question is not the empty line and the pipeline answers it. *)
Definition answered (answer_question : string -> result (string * Q))
    (question : string) : Prop :=
  question <> "" /\ exists answer score, answer_question question = Ok (answer, score).

(** ** Vocabulary of the store refinement *)

(** A 2-D array has as many elements as its shape says. *)
Definition wf2 (x : Np.ndarray2) : Prop :=
  length (Np.data x) = Np.rows x * Np.cols x.

(** The view [m] denotes the array value [x] in store [h]. *)
Definition repr2 (h : list (list Q)) (m : Store.array2) (x : Np.ndarray2) : Prop :=
  Store.base2 m < length h
  /\ Store.rows2 m = Np.rows x
  /\ Store.cols2 m = Np.cols x
  /\ take (Np.rows x * Np.cols x)
       (drop (Store.off2 m) (default [] (h !! Store.base2 m))) = Np.data x.

(** A store computation refines a pure one: it only appends buffers to
    the store, raises when the pure one raises, and otherwise returns a
    value related to the pure one's in the final store. *)
Definition refines {A B} (R : list (list Q) -> A -> B -> Prop)
    (h : list (list Q)) (c : Store.St A) (r : result B) : Prop :=
  exists news,
    match r with
    | Ok b => exists a, c h = (h ++ news, Ok a) /\ R (h ++ news) a b
    | Raise e => c h = (h ++ news, Raise e)
    end.

Definition same {A} (_ : list (list Q)) (a b : A) : Prop := a = b.

Definition denotes2 (h : list (list Q)) (m : Store.array2) (x : Np.ndarray2) : Prop :=
  repr2 h m x /\ wf2 x.

Definition denotes1 (h : list (list Q)) (v : Store.array1) (d : list Q) : Prop :=
  Store.contents h v = d.

(** Stand-ins for the external collaborators, used to run the callers on
    a concrete input: an exponential that is right at logit 0, a text that
    is already lower case, a tokenizer that finds one token in the question
    and three in the context, and a model that answers seven zero logits. *)
Definition sample_exp (x : Q) : Q := 1%Q.

Definition sample_lower (s : string) : string := s.

Definition sample_tokenizer (text : string) (vocab : gmap string Z)
    : list Z * list (Z * Z) :=
  if String.eqb text "who" then ([5%Z], [(0, 3)%Z])
  else ([11; 12; 13]%Z, [(0, 3); (4, 6); (7, 9)]%Z).

Definition sample_infer (input_dict : gmap string (list (list Z)))
    : list Q * list Q :=
  (replicate 7 0%Q, replicate 7 0%Q).

(** Stand-ins for the collaborators of the interactive loop: no source is
    a URL, nothing is fetched, the clock reads 0, 1, 2, ..., and the two
    format functions print fixed texts. *)
Definition sample_urlparse (source : string) : string * string := ("", "").

Definition sample_get_paragraphs (urls : list string) : list string := [].

Definition sample_perf_counter (n : nat) : Q := inject_Z (Z.of_nat n).

Definition sample_format_2f (x : Q) : string := "0.00".

Definition sample_format_sources (sources : list string) : string := "[...]".

(** * Properties *)

(** ** Primitives *)

Lemma Qltb_lt x y : Np.Qltb x y = true <-> (x < y)%Q.
Proof.
  unfold Np.Qltb. rewrite negb_true_iff. split.
  - intros H. apply Qnot_le_lt. intros Hle.
    apply Qle_bool_iff in Hle. congruence.
  - intros H. destruct (Qle_bool y x) eqn:E; [|reflexivity].
    apply Qle_bool_iff in E. exfalso. exact (Qlt_not_le _ _ H E).
Qed.

Lemma Qltb_ge x y : Np.Qltb x y = false <-> (y <= x)%Q.
Proof.
  unfold Np.Qltb. rewrite negb_false_iff. apply Qle_bool_iff.
Qed.

Lemma argmax_from_first_max l : forall pre best besti,
  pre !! besti = Some best ->
  (forall q x, pre !! q = Some x -> (x <= best)%Q) ->
  (forall q x, q < besti -> pre !! q = Some x -> (x < best)%Q) ->
  is_first_max (pre ++ l) (Np.argmax_from best besti (length pre) l).
Proof.
  induction l as [|x l IH]; intros pre best besti Hb Hmax Hfirst.
  - rewrite app_nil_r. exists best. auto.
  - replace (pre ++ x :: l) with ((pre ++ [x]) ++ l)
      by (rewrite <- app_assoc; reflexivity).
    assert (Hlen : S (length pre) = length (pre ++ [x]))
      by (rewrite length_app; simpl; lia).
    simpl. destruct (Np.Qltb best x) eqn:E; rewrite Hlen.
    + apply Qltb_lt in E. apply IH.
      * apply list_lookup_middle. reflexivity.
      * intros q y Hq. apply lookup_app_Some in Hq as [Hq|[_ Hq]].
        -- apply Qlt_le_weak. eapply Qle_lt_trans; [eapply Hmax; eauto|exact E].
        -- apply list_lookup_singleton_Some in Hq as [_ <-]. apply Qle_refl.
      * intros q y Hlt Hq. rewrite lookup_app_l in Hq by exact Hlt.
        eapply Qle_lt_trans; [eapply Hmax; eauto|exact E].
    + apply Qltb_ge in E. apply IH.
      * apply lookup_app_l_Some. exact Hb.
      * intros q y Hq. apply lookup_app_Some in Hq as [Hq|[_ Hq]].
        -- eapply Hmax; eauto.
        -- apply list_lookup_singleton_Some in Hq as [_ <-]. exact E.
      * intros q y Hlt Hq.
        assert (besti < length pre) by (eapply lookup_lt_Some; eauto).
        rewrite lookup_app_l in Hq by lia. eapply Hfirst; eauto.
Qed.

Lemma argmax_first_max v :
  v <> [] -> exists k, Np.argmax v = Ok k /\ is_first_max v k.
Proof.
  destruct v as [|x v]; [congruence|]. intros _.
  exists (Np.argmax_from x 0 1 v). split; [reflexivity|].
  apply (argmax_from_first_max v [x] x 0).
  - reflexivity.
  - intros q y Hq. apply list_lookup_singleton_Some in Hq as [_ <-].
    apply Qle_refl.
  - intros q y Hq. lia.
Qed.

Lemma first_max_lt l k : is_first_max l k -> k < length l.
Proof. intros (y & Hy & _). eapply lookup_lt_Some; eauto. Qed.

Lemma slice_bound_le n k : Py.slice_bound n k <= n.
Proof. unfold Py.slice_bound. destruct (k <? 0)%Z eqn:E; lia. Qed.

Lemma slice_bound_nonneg n k :
  (0 <= k)%Z -> Py.slice_bound n k = Nat.min (Z.to_nat k) n.
Proof.
  intros H. unfold Py.slice_bound.
  destruct (Z.ltb_spec k 0); [lia|reflexivity].
Qed.

Lemma length_slice {A} (l : list A) a b :
  length (Py.slice l a b)
  = Py.slice_bound (length l) b - Py.slice_bound (length l) a.
Proof.
  unfold Py.slice. rewrite length_take, length_drop.
  pose proof (slice_bound_le (length l) b). lia.
Qed.

Lemma lookup_slice {A} (l : list A) a b i :
  i < Py.slice_bound (length l) b - Py.slice_bound (length l) a ->
  Py.slice l a b !! i = l !! (Py.slice_bound (length l) a + i).
Proof.
  intros H. unfold Py.slice.
  rewrite lookup_take_lt by exact H. apply lookup_drop.
Qed.

(** Inside the array, a slice is the expected segment. *)
Lemma slice_segment {A} (l : list A) (a b : Z) :
  (0 <= a <= b)%Z -> (b <= Z.of_nat (length l))%Z ->
  length (Py.slice l a b) = Z.to_nat (b - a)
  /\ forall i, i < Z.to_nat (b - a) ->
       Py.slice l a b !! i = l !! (Z.to_nat a + i).
Proof.
  intros Hab Hb.
  assert (Ha' : Py.slice_bound (length l) a = Z.to_nat a)
    by (rewrite slice_bound_nonneg; lia).
  assert (Hb' : Py.slice_bound (length l) b = Z.to_nat b)
    by (rewrite slice_bound_nonneg; lia).
  split.
  - rewrite length_slice, Ha', Hb'. lia.
  - intros i Hi. rewrite lookup_slice; rewrite Ha'; [reflexivity|].
    rewrite Hb'. lia.
Qed.

(** An empty or inverted range of non-negative bounds selects nothing. *)
Lemma slice_empty {A} (l : list A) (a b : Z) :
  (0 <= a)%Z -> (0 <= b)%Z -> (b <= a)%Z -> Py.slice l a b = [].
Proof.
  intros Ha Hb Hba. apply length_zero_iff_nil.
  rewrite length_slice, !slice_bound_nonneg by lia. lia.
Qed.

(** Past the end of the array, a slice is shorter than its bounds say. *)
Lemma slice_short {A} (l : list A) (a b : Z) :
  (0 <= a < b)%Z -> (Z.of_nat (length l) < b)%Z ->
  (Z.of_nat (length (Py.slice l a b)) < b - a)%Z.
Proof.
  intros Hab Hb. rewrite length_slice, !slice_bound_nonneg by lia. lia.
Qed.

Lemma reshape_col v n :
  length v = n -> Np.reshape v (Z.of_nat n) 1 = Ok (Np.Array2 n 1 v).
Proof.
  intros <-. unfold Np.reshape, Np.reshape_shape.
  destruct (Z.ltb_spec (Z.of_nat (length v)) (-1)); [lia|].
  destruct (Z.eqb_spec (Z.of_nat (length v)) (-1)); [lia|].
  cbn [orb Z.ltb Z.eqb Z.compare].
  rewrite Z.mul_1_r, Z.eqb_refl. cbn. rewrite Nat2Z.id. reflexivity.
Qed.

Lemma reshape_row v n :
  length v = n -> Np.reshape v 1 (Z.of_nat n) = Ok (Np.Array2 1 n v).
Proof.
  intros <-. unfold Np.reshape, Np.reshape_shape.
  destruct (Z.ltb_spec (Z.of_nat (length v)) (-1)); [lia|].
  destruct (Z.eqb_spec (Z.of_nat (length v)) (-1)); [lia|].
  cbn [orb Z.ltb Z.eqb Z.compare].
  rewrite Z.mul_1_l, Z.eqb_refl. cbn. rewrite Nat2Z.id. reflexivity.
Qed.

(** A shape that does not match the size is refused. *)
Lemma reshape_shape_mismatch size d0 d1 :
  (0 <= d0)%Z -> (0 <= d1)%Z -> (d0 * d1 <> Z.of_nat size)%Z ->
  Np.reshape_shape size d0 d1 = Raise ValueError.
Proof.
  intros H0 H1 Hne. unfold Np.reshape_shape.
  destruct (Z.ltb_spec d0 (-1)); [lia|].
  destruct (Z.ltb_spec d1 (-1)); [lia|].
  destruct (Z.eqb_spec d0 (-1)); [lia|].
  destruct (Z.eqb_spec d1 (-1)); [lia|].
  destruct (Z.eqb_spec (d0 * d1) (Z.of_nat size)); [lia|reflexivity].
Qed.

(** A successful reshape keeps the number of elements. *)
Lemma reshape_shape_size size d0 d1 r c :
  Np.reshape_shape size d0 d1 = Ok (r, c) -> r * c = size.
Proof.
  unfold Np.reshape_shape.
  destruct (Z.ltb_spec d0 (-1)); [discriminate|].
  destruct (Z.ltb_spec d1 (-1)); [discriminate|].
  cbn [orb].
  destruct (Z.eqb_spec d0 (-1)).
  - destruct (Z.eqb_spec d1 (-1)); [discriminate|].
    destruct (Z.eqb_spec d1 0); [discriminate|].
    destruct (Z.eqb_spec (Z.of_nat size mod d1) 0); [|discriminate].
    cbn. intros [= <- <-].
    assert (Hd : (Z.of_nat size = d1 * (Z.of_nat size / d1))%Z).
    { rewrite (Z.div_mod (Z.of_nat size) d1) at 1 by lia. lia. }
    assert (0 <= Z.of_nat size / d1)%Z by (apply Z.div_pos; lia).
    nia.
  - destruct (Z.eqb_spec d1 (-1)).
    + destruct (Z.eqb_spec d0 0); [discriminate|].
      destruct (Z.eqb_spec (Z.of_nat size mod d0) 0); [|discriminate].
      cbn. intros [= <- <-].
      assert (Hd : (Z.of_nat size = d0 * (Z.of_nat size / d0))%Z).
      { rewrite (Z.div_mod (Z.of_nat size) d0) at 1 by lia. lia. }
      assert (0 <= Z.of_nat size / d0)%Z by (apply Z.div_pos; lia).
      nia.
    + destruct (Z.eqb_spec (d0 * d1) (Z.of_nat size)); [|discriminate].
      intros [= <- <-]. nia.
Qed.

Lemma length_outer col row :
  length (Np.outer col row) = length col * length row.
Proof.
  unfold Np.outer. induction col as [|a col IH]; [reflexivity|].
  cbn [flat_map]. rewrite length_app, IH, length_map. reflexivity.
Qed.

Lemma lookup_outer col row : forall i j a b,
  col !! i = Some a -> row !! j = Some b ->
  Np.outer col row !! (i * length row + j) = Some (a * b)%Q.
Proof.
  unfold Np.outer. induction col as [|a0 col IH]; intros i j a b Hi Hj.
  - discriminate.
  - cbn [flat_map].
    assert (Hjlt : j < length row) by (eapply lookup_lt_Some; eauto).
    destruct i as [|i].
    + injection Hi as ->. rewrite lookup_app_l by (rewrite length_map; lia).
      cbn. change (map ?f row) with (f <$> row).
      rewrite list_lookup_fmap, Hj. reflexivity.
    + rewrite lookup_app_r by (rewrite length_map; lia).
      rewrite length_map.
      replace (S i * length row + j - length row) with (i * length row + j) by lia.
      apply IH; assumption.
Qed.

Lemma divmod_nat p L :
  L <> 0 ->
  Py.divmod (Z.of_nat p) (Z.of_nat L) = Ok (Z.of_nat (p / L), Z.of_nat (p mod L)).
Proof.
  intros HL. unfold Py.divmod.
  destruct (Z.eqb_spec (Z.of_nat L) 0); [lia|].
  rewrite Nat2Z.inj_div, Nat2Z.inj_mod. reflexivity.
Qed.

Lemma getitem2_nat m i j x :
  i < Np.rows m -> j < Np.cols m ->
  Np.data m !! (i * Np.cols m + j) = Some x ->
  Np.getitem2 m (Z.of_nat i) (Z.of_nat j) = Ok x.
Proof.
  intros Hi Hj Hx. unfold Np.getitem2.
  assert (Ei : (Z.of_nat i <? 0)%Z = false) by (apply Z.ltb_ge; lia).
  assert (Ej : (Z.of_nat j <? 0)%Z = false) by (apply Z.ltb_ge; lia).
  assert (Er : (Z.of_nat (Np.rows m) <=? Z.of_nat i)%Z = false)
    by (apply Z.leb_gt; lia).
  assert (Ec : (Z.of_nat (Np.cols m) <=? Z.of_nat j)%Z = false)
    by (apply Z.leb_gt; lia).
  cbv zeta. rewrite Ei, Ej. cbv iota. rewrite Ei, Ej, Er, Ec.
  cbn [orb]. rewrite !Nat2Z.id, Hx. reflexivity.
Qed.

Lemma reshape_col_any v :
  Np.reshape v (-1) 1 = Ok (Np.Array2 (length v) 1 v).
Proof.
  unfold Np.reshape, Np.reshape_shape.
  cbn [orb Z.ltb Z.eqb Z.compare Pos.compare Pos.compare_cont Pos.eqb negb CompOpp].
  rewrite Z.mod_1_r, Z.div_1_r. cbn. rewrite Nat2Z.id. reflexivity.
Qed.

Lemma reshape_row_any v :
  Np.reshape v 1 (-1) = Ok (Np.Array2 1 (length v) v).
Proof.
  unfold Np.reshape, Np.reshape_shape.
  cbn [orb Z.ltb Z.eqb Z.compare Pos.compare Pos.compare_cont Pos.eqb negb CompOpp].
  rewrite Z.mod_1_r, Z.div_1_r. cbn. rewrite Nat2Z.id. reflexivity.
Qed.

(** ** The masked score matrix *)

Lemma masked_length col row :
  length (masked col row) = length col * length row.
Proof.
  unfold masked. cbn. rewrite !length_imap, length_outer. reflexivity.
Qed.

Lemma masked_lookup col row p :
  p < length col * length row -> masked col row !! p = Some (entry col row p).
Proof.
  intros Hp. set (L := length row).
  assert (HL : L <> 0) by (unfold L; lia).
  assert (Hi : p / L < length col)
    by (apply Nat.Div0.div_lt_upper_bound; unfold L; lia).
  assert (Hj : p mod L < L) by (apply Nat.mod_upper_bound; exact HL).
  pose proof (Nat.div_mod_eq p L) as Hdm.
  destruct (lookup_lt_is_Some_2 col (p / L)) as [a Ha]; [lia|].
  destruct (lookup_lt_is_Some_2 row (p mod L)) as [b Hb]; [exact Hj|].
  pose proof (lookup_outer col row _ _ a b Ha Hb) as Ho.
  replace (p / L * length row + p mod L) with p in Ho by (fold L; lia).
  unfold masked. cbn. rewrite !list_lookup_imap, Ho. cbn.
  unfold entry. cbv zeta. fold L. rewrite Ha, Hb. reflexivity.
Qed.

Lemma entry_at col row i j :
  j < length row ->
  entry col row (i * length row + j)
  = if (Z.of_nat j - Z.of_nat i <=? 16)%Z then
      if (0 <=? Z.of_nat j - Z.of_nat i)%Z then
        Qmult (default 0%Q (col !! i)) (default 0%Q (row !! j))
      else 0%Q
    else 0%Q.
Proof.
  intros Hj. unfold entry. cbv zeta.
  rewrite Nat.div_add_l, Nat.div_small, Nat.add_0_r by lia.
  rewrite Nat.add_comm, Nat.Div0.mod_add, Nat.mod_small by lia.
  reflexivity.
Qed.

Lemma non_negative_lookup v k : non_negative v -> (0 <= default 0 (v !! k))%Q.
Proof.
  intros H. destruct (v !! k) as [x|] eqn:E; cbn.
  - exact (proj1 (Forall_lookup _ v) H k x E).
  - apply Qle_refl.
Qed.

Lemma non_negative_slice v a b : non_negative v -> non_negative (Py.slice v a b).
Proof. intros H. unfold Py.slice. apply Forall_take, Forall_drop, H. Qed.

Lemma entry_non_negative col row p :
  non_negative col -> non_negative row -> (0 <= entry col row p)%Q.
Proof.
  intros Hc Hr. unfold entry. cbv zeta.
  destruct (_ <=? 16)%Z; [|apply Qle_refl].
  destruct (0 <=? _)%Z; [|apply Qle_refl].
  apply Qmult_le_0_compat; apply non_negative_lookup; assumption.
Qed.

(** With non-negative scores the first largest entry is never one the
    masks have zeroed: entry 0 is a candidate and it is at least 0. *)
Lemma first_max_unmasked col row p :
  non_negative col -> non_negative row ->
  is_first_max (masked col row) p ->
  (0 <= Z.of_nat (p mod length row) - Z.of_nat (p / length row) <= 16)%Z.
Proof.
  intros Hc Hr Hfm.
  pose proof (first_max_lt _ _ Hfm) as Hp. rewrite masked_length in Hp.
  destruct Hfm as (y & Hy & _ & Hfirst).
  rewrite masked_lookup in Hy by exact Hp. injection Hy as <-.
  destruct p as [|p].
  - rewrite Nat.Div0.mod_0_l, Nat.Div0.div_0_l. lia.
  - assert (H0 : (entry col row 0 < entry col row (S p))%Q).
    { apply (Hfirst 0); [lia|]. apply masked_lookup. lia. }
    pose proof (entry_non_negative col row 0 Hc Hr) as Hge.
    assert (Hpos : (0 < entry col row (S p))%Q)
      by (eapply Qle_lt_trans; eauto).
    unfold entry in Hpos. cbv zeta in Hpos.
    destruct (Z.leb_spec (Z.of_nat (S p mod length row)
                          - Z.of_nat (S p / length row)) 16);
      [|exfalso; exact (Qlt_irrefl _ Hpos)].
    destruct (Z.leb_spec 0 (Z.of_nat (S p mod length row)
                            - Z.of_nat (S p / length row)));
      [|exfalso; exact (Qlt_irrefl _ Hpos)].
    lia.
Qed.

(** ** What the scorer computes *)

Lemma classic_fit start_score end_score cs ce :
  shapes_fit start_score end_score cs ce
  \/ ~ shapes_fit start_score end_score cs ce.
Proof. unfold shapes_fit. lia. Qed.

(** When the shapes fit, the scorer is the argmax of the masked matrix. *)
Lemma scorer_unfold start_score end_score cs ce :
  shapes_fit start_score end_score cs ce ->
  find_best_answer_window start_score end_score cs ce
  = let col := Py.slice start_score cs ce in
    let row := Py.slice end_score cs ce in
    match Np.argmax (masked col row) with
    | Ok p => Ok (entry col row p,
                  Z.of_nat (p / length row), Z.of_nat (p mod length row))
    | Raise _ => Raise ValueError
    end.
Proof.
  intros Hfit. cbv zeta.
  set (col := Py.slice start_score cs ce).
  set (row := Py.slice end_score cs ce).
  assert (Hre : Np.reshape col (ce - cs) 1 = Ok (Np.Array2 (length col) 1 col)
              /\ Np.reshape row 1 (ce - cs) = Ok (Np.Array2 1 (length row) row)).
  { destruct Hfit as [->|[H1 H2]].
    - split; [apply reshape_col_any|apply reshape_row_any].
    - fold col in H1. fold row in H2. split.
      + rewrite H1. apply reshape_col. reflexivity.
      + rewrite H2. apply reshape_row. reflexivity. }
  destruct Hre as [Hc Hr].
  unfold find_best_answer_window. fold col row. rewrite Hc, Hr.
  cbn [mbind result_bind Np.matmul Np.cols Np.rows Np.data Nat.eqb negb].
  unfold Np.flatten. fold (masked col row).
  destruct (masked col row) as [|x0 rest] eqn:Hm; [reflexivity|].
  destruct (argmax_first_max (x0 :: rest)) as (p & Harg & Hfm); [discriminate|].
  rewrite Harg. cbn [mbind result_bind].
  pose proof (first_max_lt _ _ Hfm) as Hp.
  rewrite <- Hm, masked_length in Hp.
  set (M := Np.tril (Np.triu
              (Np.Array2 (length col) (length row) (Np.outer col row)) 0) 16).
  assert (HL : length row <> 0) by lia.
  replace (Np.cols M) with (length row) by reflexivity.
  rewrite (divmod_nat p (length row) HL). cbn [mbind result_bind].
  rewrite (getitem2_nat M (p / length row) (p mod length row) (entry col row p)).
  - reflexivity.
  - apply Nat.Div0.div_lt_upper_bound. cbn. lia.
  - apply Nat.mod_upper_bound. exact HL.
  - replace (Np.cols M) with (length row) by reflexivity.
    replace (p / length row * length row + p mod length row) with p
      by (pose proof (Nat.div_mod_eq p (length row)); lia).
    apply masked_lookup. exact Hp.
Qed.

Lemma reshape_col_misfit v d :
  d <> (-1)%Z -> d <> Z.of_nat (length v) ->
  Np.reshape v d 1 = Raise ValueError.
Proof.
  intros H1 Hd. unfold Np.reshape.
  destruct (Z.ltb_spec d (-1)) as [Hneg|Hge].
  - unfold Np.reshape_shape.
    destruct (Z.ltb_spec d (-1)); [reflexivity|lia].
  - rewrite reshape_shape_mismatch by lia. reflexivity.
Qed.

Lemma reshape_row_misfit v d :
  d <> (-1)%Z -> d <> Z.of_nat (length v) ->
  Np.reshape v 1 d = Raise ValueError.
Proof.
  intros H1 Hd. unfold Np.reshape.
  destruct (Z.ltb_spec d (-1)) as [Hneg|Hge].
  - unfold Np.reshape_shape.
    destruct (Z.ltb_spec d (-1)); [rewrite orb_true_r; reflexivity|lia].
  - rewrite reshape_shape_mismatch by lia. reflexivity.
Qed.

(** When they do not, the first failing [reshape] raises. *)
Lemma scorer_misfit start_score end_score cs ce :
  ~ shapes_fit start_score end_score cs ce ->
  find_best_answer_window start_score end_score cs ce = Raise ValueError.
Proof.
  intros Hfit. unfold shapes_fit in Hfit.
  set (col := Py.slice start_score cs ce) in *.
  set (row := Py.slice end_score cs ce) in *.
  unfold find_best_answer_window. fold col row.
  destruct (Z.eq_dec (ce - cs)%Z (Z.of_nat (length col))) as [Hc|Hc].
  - rewrite (reshape_row_misfit row (ce - cs)%Z) by lia.
    rewrite Hc. rewrite (reshape_col col (length col) eq_refl). reflexivity.
  - rewrite (reshape_col_misfit col (ce - cs)%Z) by lia. reflexivity.
Qed.

(** The scorer raises nothing but [ValueError]. *)
Lemma scorer_raises_ValueError start_score end_score cs ce e :
  find_best_answer_window start_score end_score cs ce = Raise e ->
  e = ValueError.
Proof.
  destruct (classic_fit start_score end_score cs ce) as [Hfit|Hfit].
  - rewrite (scorer_unfold _ _ _ _ Hfit). cbv zeta.
    destruct (Np.argmax _); [discriminate|]. congruence.
  - rewrite (scorer_misfit _ _ _ _ Hfit). congruence.
Qed.


(** ** The scorer on a context region *)

(** Row-major position of a candidate window. *)
Lemma valid_pair_position len i j :
  valid_pair len i j ->
  Z.to_nat i * Z.to_nat len + Z.to_nat j < Z.to_nat len * Z.to_nat len.
Proof. intros (Hi & Hij & Hj & Hlen). nia. Qed.

Section ContextRegion.

Variables (start_score end_score : list Q) (cs ce : Z).
Hypothesis Hcs : (0 <= cs)%Z.
Hypothesis Hce : (cs <= ce)%Z.
Hypothesis Hstart : (ce <= Z.of_nat (length start_score))%Z.
Hypothesis Hend : (ce <= Z.of_nat (length end_score))%Z.

Let L := Z.to_nat (ce - cs).
Let col := Py.slice start_score cs ce.
Let row := Py.slice end_score cs ce.

Lemma region_lengths : length col = L /\ length row = L.
Proof.
  split; [apply (slice_segment start_score cs ce)|apply (slice_segment end_score cs ce)];
    lia.
Qed.

Lemma region_fits : shapes_fit start_score end_score cs ce.
Proof.
  destruct region_lengths as [Hc Hr]. right.
  fold col row. rewrite Hc, Hr. unfold L. lia.
Qed.

Lemma region_start i :
  (0 <= i < ce - cs)%Z ->
  default 0%Q (col !! Z.to_nat i) = score_at start_score (cs + i).
Proof.
  intros Hi. unfold col, score_at.
  rewrite (proj2 (slice_segment start_score cs ce ltac:(lia) Hstart)) by lia.
  replace (Z.to_nat (cs + i)) with (Z.to_nat cs + Z.to_nat i) by lia.
  reflexivity.
Qed.

Lemma region_end j :
  (0 <= j < ce - cs)%Z ->
  default 0%Q (row !! Z.to_nat j) = score_at end_score (cs + j).
Proof.
  intros Hj. unfold row, score_at.
  rewrite (proj2 (slice_segment end_score cs ce ltac:(lia) Hend)) by lia.
  replace (Z.to_nat (cs + j)) with (Z.to_nat cs + Z.to_nat j) by lia.
  reflexivity.
Qed.

(** The entry of a candidate window is its score. *)
Lemma region_entry i j :
  valid_pair (ce - cs) i j ->
  entry col row (Z.to_nat i * L + Z.to_nat j)
  = window_score start_score end_score cs i j.
Proof.
  intros (Hi & Hij & Hj & Hlen).
  destruct region_lengths as [Hc Hr].
  rewrite <- Hr at 1. rewrite entry_at by (rewrite Hr; unfold L; lia).
  rewrite !Z2Nat.id by lia.
  destruct (Z.leb_spec (j - i) 16); [|lia].
  destruct (Z.leb_spec 0 (j - i)); [|lia].
  unfold window_score. rewrite region_start, region_end by lia. reflexivity.
Qed.

(** On a non-empty region the scorer returns the first largest entry. *)
Lemma region_returns :
  (cs < ce)%Z ->
  exists p,
    p < L * L
    /\ is_first_max (masked col row) p
    /\ find_best_answer_window start_score end_score cs ce
       = Ok (entry col row p, Z.of_nat (p / L), Z.of_nat (p mod L)).
Proof.
  intros Hne. destruct region_lengths as [Hc Hr].
  rewrite (scorer_unfold _ _ _ _ region_fits). cbv zeta. fold col row.
  destruct (argmax_first_max (masked col row)) as (p & Harg & Hfm).
  { intros Hnil. pose proof (masked_length col row) as Hlen.
    rewrite Hnil, Hc, Hr in Hlen. cbn in Hlen. unfold L in Hlen. nia. }
  exists p. rewrite Harg, Hr. split; [|split]; [|exact Hfm|reflexivity].
  pose proof (first_max_lt _ _ Hfm) as Hp.
  rewrite masked_length, Hc, Hr in Hp. exact Hp.
Qed.

End ContextRegion.

(** With non-negative scores, the window returned on a non-empty region
    is the first candidate of largest score. *)
Lemma region_best_window start_score end_score cs ce :
  non_negative start_score -> non_negative end_score ->
  (0 <= cs)%Z -> (cs < ce)%Z ->
  (ce <= Z.of_nat (length start_score))%Z ->
  (ce <= Z.of_nat (length end_score))%Z ->
  exists score i j,
    find_best_answer_window start_score end_score cs ce = Ok (score, i, j)
    /\ valid_pair (ce - cs) i j
    /\ score = window_score start_score end_score cs i j
    /\ (forall i' j', valid_pair (ce - cs) i' j' ->
          (window_score start_score end_score cs i' j' <= score)%Q)
    /\ (forall i' j', valid_pair (ce - cs) i' j' -> lex_lt (i', j') (i, j) ->
          (window_score start_score end_score cs i' j' < score)%Q).
Proof.
  intros Hs He Hcs Hne Hstart Hend.
  assert (Hce : (cs <= ce)%Z) by lia.
  destruct (region_returns start_score end_score cs ce Hcs Hce Hstart Hend Hne)
    as (p & Hp & Hfm & Hrun).
  destruct (region_lengths start_score end_score cs ce Hcs Hce Hstart Hend)
    as [Hc Hr].
  set (L := Z.to_nat (ce - cs)) in *.
  set (col := Py.slice start_score cs ce) in *.
  set (row := Py.slice end_score cs ce) in *.
  assert (HL : L <> 0) by (unfold L; lia).
  pose proof (first_max_unmasked col row p
                (non_negative_slice _ _ _ Hs) (non_negative_slice _ _ _ He) Hfm)
    as Hun.
  rewrite Hr in Hun.
  pose proof (Nat.mod_upper_bound p L HL) as Hj.
  pose proof (Nat.div_mod_eq p L) as Hdm.
  assert (Hvalid : valid_pair (ce - cs) (Z.of_nat (p / L)) (Z.of_nat (p mod L)))
    by (unfold valid_pair, L in *; lia).
  assert (Hscore : entry col row p
                   = window_score start_score end_score cs
                       (Z.of_nat (p / L)) (Z.of_nat (p mod L))).
  { rewrite <- (region_entry start_score end_score cs ce Hcs Hce Hstart Hend _ _ Hvalid).
    fold L col row. rewrite !Nat2Z.id. f_equal. lia. }
  exists (entry col row p), (Z.of_nat (p / L)), (Z.of_nat (p mod L)).
  split; [exact Hrun|]. split; [exact Hvalid|]. split; [exact Hscore|].
  destruct Hfm as (y & Hy & Hmax & Hfirst).
  rewrite masked_lookup in Hy by (rewrite Hc, Hr; exact Hp).
  injection Hy as <-.
  split.
  - intros i' j' Hv.
    rewrite <- (region_entry start_score end_score cs ce Hcs Hce Hstart Hend _ _ Hv).
    fold L col row. eapply Hmax. apply masked_lookup. rewrite Hc, Hr.
    apply (valid_pair_position _ _ _ Hv).
  - intros i' j' Hv Hlex.
    rewrite <- (region_entry start_score end_score cs ce Hcs Hce Hstart Hend _ _ Hv).
    fold L col row.
    pose proof (valid_pair_position _ _ _ Hv) as Hq. fold L in Hq.
    eapply Hfirst; [|apply masked_lookup; rewrite Hc, Hr; exact Hq].
    destruct Hv as (Hi' & Hij' & Hj' & _).
    unfold lex_lt in Hlex. cbn [fst snd] in Hlex.
    assert (Z.to_nat j' < L) by (unfold L; lia).
    destruct Hlex as [Hlt|[Heq Hlt]].
    + assert (Z.to_nat i' < p / L) by lia. nia.
    + assert (Z.to_nat i' = p / L) by lia. nia.
Qed.

(** ** Claims about the scorer *)

(** C1. For equal-length non-negative score vectors and a non-empty
    context region [0 <= context_start_idx < context_end_idx <= length],
    the scorer returns a triple [(score, i, j)] where [(i, j)] is a valid
    pair ([i <= j], [j - i <= 16], both inside the region), [score] is the
    product [start_score[cs+i] * end_score[cs+j]], no valid pair has a
    larger product, and every valid pair that comes before [(i, j)] in
    row-major order has a strictly smaller product. *)
Theorem best_window_is_first_maximum start_score end_score cs ce :
  length start_score = length end_score ->
  non_negative start_score -> non_negative end_score ->
  (0 <= cs)%Z -> (cs < ce)%Z -> (ce <= Z.of_nat (length start_score))%Z ->
  exists score i j,
    find_best_answer_window start_score end_score cs ce = Ok (score, i, j)
    /\ valid_pair (ce - cs) i j
    /\ score = window_score start_score end_score cs i j
    /\ (forall i' j', valid_pair (ce - cs) i' j' ->
          (window_score start_score end_score cs i' j' <= score)%Q)
    /\ (forall i' j', valid_pair (ce - cs) i' j' -> lex_lt (i', j') (i, j) ->
          (window_score start_score end_score cs i' j' < score)%Q).
Proof.
  intros Hlen Hs He Hcs Hne Hstart.
  apply region_best_window; try assumption. lia.
Qed.

Lemma best_window_is_first_maximum_witness :
  exists score i j,
    find_best_answer_window [1#10; 1#10; 7#10; 1#10] [1#10; 1#10; 1#10; 7#10] 0 4
      = Ok (score, i, j)
    /\ valid_pair (4 - 0) i j
    /\ score = window_score [1#10; 1#10; 7#10; 1#10] [1#10; 1#10; 1#10; 7#10] 0 i j
    /\ (forall i' j', valid_pair (4 - 0) i' j' ->
          (window_score [1#10; 1#10; 7#10; 1#10] [1#10; 1#10; 1#10; 7#10] 0 i' j'
           <= score)%Q)
    /\ (forall i' j', valid_pair (4 - 0) i' j' -> lex_lt (i', j') (i, j) ->
          (window_score [1#10; 1#10; 7#10; 1#10] [1#10; 1#10; 1#10; 7#10] 0 i' j'
           < score)%Q).
Proof.
  apply (best_window_is_first_maximum
           [1#10; 1#10; 7#10; 1#10] [1#10; 1#10; 1#10; 7#10] 0 4).
  - reflexivity.
  - repeat constructor; discriminate.
  - repeat constructor; discriminate.
  - lia.
  - lia.
  - simpl. lia.
Defined.

(** C2. For equal-length score vectors of length N (probabilities, hence
    non-negative, as the scorer's contract has them) and every
    [0 <= context_start_idx <= context_end_idx <= N] with a non-empty
    context region, the scorer returns indices [i], [j] with
    [context_start_idx <= context_start_idx + i <= context_start_idx + j
     < context_end_idx] and [j - i <= 16]. *)
Theorem window_indices_in_context start_score end_score cs ce :
  length start_score = length end_score ->
  non_negative start_score -> non_negative end_score ->
  (0 <= cs)%Z -> (cs < ce)%Z -> (ce <= Z.of_nat (length start_score))%Z ->
  exists score i j,
    find_best_answer_window start_score end_score cs ce = Ok (score, i, j)
    /\ window_in_context cs ce i j.
Proof.
  intros Hlen Hs He Hcs Hne Hstart.
  destruct (region_best_window start_score end_score cs ce)
    as (score & i & j & Hrun & Hvalid & _); try assumption; [lia|].
  exists score, i, j. split; [exact Hrun|].
  unfold valid_pair in Hvalid. unfold window_in_context. lia.
Qed.

Lemma window_indices_in_context_witness :
  exists score i j,
    find_best_answer_window [1#2; 1#4; 1#4] [1#4; 1#4; 1#2] 1 3 = Ok (score, i, j)
    /\ window_in_context 1 3 i j.
Proof.
  apply (window_indices_in_context [1#2; 1#4; 1#4] [1#4; 1#4; 1#2] 1 3).
  - reflexivity.
  - repeat constructor; discriminate.
  - repeat constructor; discriminate.
  - lia.
  - lia.
  - simpl. lia.
Defined.

(** Outside the contract, with negative scores, a zero written by a mask
    can be the largest entry: the pair returned here has its end before
    its start. *)
Example negative_scores_pick_masked_entry :
  find_best_answer_window [-1#1; -1#1] [1#1; 1#1] 0 2 = Ok (0%Q, 1%Z, 0%Z).
Proof. vm_compute. reflexivity. Qed.



(** C4. The span-length invariant (start index [<=] end index, and the
    window covers no more than 16 tokens) on two probability vectors over
    21 tokens, a 3-token prefix, a 17-token context and the final
    separator, with the start peak on the first context token and the end
    peak on the last one: the mask [np.tril(_, 16)] keeps the pair
    [(0, 16)], and the window returned covers 17 tokens. *)
Theorem window_of_seventeen_tokens :
  find_best_answer_window
    (replicate 3 (1#200) ++ [9#10] ++ replicate 17 (1#200))
    (replicate 19 (1#200) ++ [9#10] ++ [1#200]) 3 20
  = Ok (81#100, 0%Z, 16%Z)
  /\ tokens_covered 0 16 = 17%Z
  /\ ~ (tokens_covered 0 16 <= 16)%Z.
Proof.
  split; [vm_compute; reflexivity|]. split; [reflexivity|].
  unfold tokens_covered. lia.
Qed.

(** C5 as stated fails: on uniform probabilities over a two-token context
    the scorer returns [(0, 0)], not [(0, min(16, context_len - 1))]. *)
Lemma uniform_scores_counterexample :
  find_best_answer_window [1#2; 1#2] [1#2; 1#2] 0 2 = Ok (1#4, 0%Z, 0%Z)
  /\ 0%Z <> Z.min 16 (2 - 0 - 1).
Proof. split; [vm_compute; reflexivity|discriminate]. Qed.

Lemma uniform_lookup v a k :
  uniform v a -> k < length v -> (default 0 (v !! k) == a)%Q.
Proof.
  intros H Hk. destruct (lookup_lt_is_Some_2 v k Hk) as [x Hx].
  rewrite Hx. cbn. exact (proj1 (Forall_lookup _ v) H k x Hx).
Qed.

Lemma uniform_slice v a x y : uniform v a -> uniform (Py.slice v x y) a.
Proof. intros H. unfold Py.slice. apply Forall_take, Forall_drop, H. Qed.

(** C5, amended. For uniform non-negative score vectors (all entries of
    [start_score] equal to [a], all entries of [end_score] equal to [b])
    over a non-empty context region, the scorer returns the first maximal
    window in row-major order, which is [i = 0], [j = 0]. *)
Theorem uniform_scores_first_window start_score end_score a b cs ce :
  uniform start_score a -> uniform end_score b ->
  (0 <= a)%Q -> (0 <= b)%Q ->
  (0 <= cs)%Z -> (cs < ce)%Z ->
  (ce <= Z.of_nat (length start_score))%Z ->
  (ce <= Z.of_nat (length end_score))%Z ->
  exists score,
    find_best_answer_window start_score end_score cs ce = Ok (score, 0%Z, 0%Z).
Proof.
  intros Hs He Ha Hb Hcs Hne Hstart Hend.
  assert (Hce : (cs <= ce)%Z) by lia.
  destruct (region_returns start_score end_score cs ce Hcs Hce Hstart Hend Hne)
    as (p & Hp & Hfm & Hrun).
  destruct (region_lengths start_score end_score cs ce Hcs Hce Hstart Hend)
    as [Hc Hr].
  set (L := Z.to_nat (ce - cs)) in *.
  set (col := Py.slice start_score cs ce) in *.
  set (row := Py.slice end_score cs ce) in *.
  assert (Hucol : uniform col a) by (apply uniform_slice; exact Hs).
  assert (Hurow : uniform row b) by (apply uniform_slice; exact He).
  assert (HL : L <> 0) by (unfold L; lia).
  assert (Hab : (0 <= a * b)%Q) by (apply Qmult_le_0_compat; assumption).
  assert (H0 : (entry col row 0 == a * b)%Q).
  { unfold entry. cbv zeta. rewrite Nat.Div0.mod_0_l, Nat.Div0.div_0_l. cbn.
    apply Qmult_comp; apply uniform_lookup; (assumption || lia). }
  assert (Hle : (entry col row p <= a * b)%Q).
  { unfold entry. cbv zeta.
    destruct (_ <=? 16)%Z; [|exact Hab].
    destruct (0 <=? _)%Z; [|exact Hab].
    apply Qle_lteq. right. apply Qmult_comp; apply uniform_lookup; try assumption.
    - rewrite Hc. apply Nat.Div0.div_lt_upper_bound. lia.
    - rewrite Hr. apply Nat.mod_upper_bound. exact HL. }
  destruct p as [|p].
  - exists (entry col row 0). rewrite Hrun.
    rewrite Nat.Div0.mod_0_l, Nat.Div0.div_0_l. reflexivity.
  - exfalso. destruct Hfm as (y & Hy & _ & Hfirst).
    rewrite masked_lookup in Hy by (rewrite Hc, Hr; exact Hp).
    injection Hy as <-.
    assert (Hlt : (entry col row 0 < entry col row (S p))%Q).
    { apply (Hfirst 0); [lia|]. apply masked_lookup. rewrite Hc, Hr. lia. }
    apply (Qlt_not_le _ _ Hlt). rewrite H0. exact Hle.
Qed.

Lemma uniform_scores_first_window_witness :
  exists score,
    find_best_answer_window [1#2; 1#2] [1#3; 1#3] 0 2 = Ok (score, 0%Z, 0%Z).
Proof.
  apply (uniform_scores_first_window [1#2; 1#2] [1#3; 1#3] (1#2) (1#3) 0 2).
  - repeat constructor.
  - repeat constructor.
  - discriminate.
  - discriminate.
  - lia.
  - lia.
  - simpl. lia.
  - simpl. lia.
Defined.

(** C9. For every score vector pair and every context region of length
    exactly 1 ([context_end_idx = context_start_idx + 1]) the scorer
    returns [i = 0] and [j = 0], with the score of that single window. *)
Theorem single_token_context start_score end_score cs ce :
  (0 <= cs)%Z -> ce = (cs + 1)%Z ->
  (ce <= Z.of_nat (length start_score))%Z ->
  (ce <= Z.of_nat (length end_score))%Z ->
  find_best_answer_window start_score end_score cs ce
  = Ok (window_score start_score end_score cs 0 0, 0%Z, 0%Z).
Proof.
  intros Hcs Hlen1 Hstart Hend.
  assert (Hce : (cs <= ce)%Z) by lia.
  assert (Hne : (cs < ce)%Z) by lia.
  destruct (region_returns start_score end_score cs ce Hcs Hce Hstart Hend Hne)
    as (p & Hp & _ & Hrun).
  assert (HL : Z.to_nat (ce - cs) = 1) by lia.
  rewrite HL in Hp, Hrun.
  assert (p = 0) by lia. subst p.
  assert (Hv : valid_pair (ce - cs) 0 0) by (unfold valid_pair; lia).
  pose proof (region_entry start_score end_score cs ce Hcs Hce Hstart Hend 0 0 Hv)
    as Hent.
  replace (Z.to_nat 0 * Z.to_nat (ce - cs) + Z.to_nat 0) with 0 in Hent by lia.
  rewrite Hent in Hrun. exact Hrun.
Qed.

Lemma single_token_context_witness :
  find_best_answer_window [1#3; 2#3] [1#4; 3#4] 1 2
  = Ok (window_score [1#3; 2#3] [1#4; 3#4] 1 0 0, 0%Z, 0%Z).
Proof.
  apply (single_token_context [1#3; 2#3] [1#4; 3#4] 1 2).
  - lia.
  - reflexivity.
  - simpl. lia.
  - simpl. lia.
Defined.

(** C7. On [start_score = [0.1, 0.1, 0.7, 0.1]],
    [end_score = [0.1, 0.1, 0.1, 0.7]], [context_start_idx = 0] and
    [context_end_idx = 4] the scorer returns [i = 2], [j = 3] with score
    [0.49 = 0.7 * 0.7]. *)
Theorem scenario_peak_at_2_3 :
  find_best_answer_window [1#10; 1#10; 7#10; 1#10] [1#10; 1#10; 1#10; 7#10] 0 4
  = Ok (49#100, 2%Z, 3%Z)
  /\ (49#100 == (7#10) * (7#10))%Q.
Proof. split; vm_compute; reflexivity. Qed.

(** C6 as stated fails: score vectors of different lengths are accepted
    as long as both reach [context_end_idx]; and an end index of [-1],
    which is below the start index 0, is read by the slice as "all but the
    last token" and by [reshape] as a wildcard, so a window is returned. *)
Lemma length_mismatch_counterexample :
  (length [1#2; 1#2] <> length [1#2; 1#2; 0%Q]
   /\ find_best_answer_window [1#2; 1#2] [1#2; 1#2; 0%Q] 0 2
      = Ok (1#4, 0%Z, 0%Z))
  /\ ((-1 <= 0)%Z
      /\ find_best_answer_window [1#2; 1#2] [1#2; 1#2] 0 (-1)
         = Ok (1#4, 0%Z, 0%Z)).
Proof.
  split; split; first [discriminate | vm_compute; reflexivity].
Qed.

Lemma masked_nil_l row : masked [] row = [].
Proof. reflexivity. Qed.

(** C6, amended. For non-negative bounds the scorer fails, with the
    [ValueError] NumPy raises, exactly when the context region is empty
    ([context_end_idx <= context_start_idx]) or [context_end_idx] lies
    beyond the end of one of the score vectors; otherwise it returns a
    window, whether or not the two vectors have the same length. *)
Theorem scorer_failure_conditions start_score end_score cs ce :
  (0 <= cs)%Z -> (0 <= ce)%Z ->
  ((ce <= cs
    \/ Z.of_nat (length start_score) < ce
    \/ Z.of_nat (length end_score) < ce)%Z ->
   find_best_answer_window start_score end_score cs ce = Raise ValueError)
  /\ ((cs < ce
       /\ ce <= Z.of_nat (length start_score)
       /\ ce <= Z.of_nat (length end_score))%Z ->
      exists score i j,
        find_best_answer_window start_score end_score cs ce = Ok (score, i, j)).
Proof.
  intros Hcs Hce. split.
  - intros Hbad.
    destruct (classic_fit start_score end_score cs ce) as [Hfit|Hfit];
      [|apply scorer_misfit; exact Hfit].
    destruct (Z.le_gt_cases ce cs) as [Hempty|Hne].
    + rewrite (scorer_unfold _ _ _ _ Hfit). cbv zeta.
      rewrite (slice_empty start_score cs ce) by assumption.
      rewrite masked_nil_l. reflexivity.
    + exfalso. destruct Hfit as [Hfit|[H1 H2]]; [lia|].
      destruct Hbad as [Hbad|[Hbad|Hbad]]; [lia| |].
      * pose proof (slice_short start_score cs ce ltac:(lia) Hbad). lia.
      * pose proof (slice_short end_score cs ce ltac:(lia) Hbad). lia.
  - intros (Hne & Hstart & Hend).
    destruct (region_returns start_score end_score cs ce) as (p & _ & _ & Hrun);
      try lia.
    eauto.
Qed.

Lemma scorer_failure_conditions_witness :
  ((1 <= 1
    \/ Z.of_nat (length [1#2; 1#2]) < 1
    \/ Z.of_nat (length [1#2; 1#2; 0%Q]) < 1)%Z ->
   find_best_answer_window [1#2; 1#2] [1#2; 1#2; 0%Q] 1 1 = Raise ValueError)
  /\ ((1 < 1
       /\ 1 <= Z.of_nat (length [1#2; 1#2])
       /\ 1 <= Z.of_nat (length [1#2; 1#2; 0%Q]))%Z ->
      exists score i j,
        find_best_answer_window [1#2; 1#2] [1#2; 1#2; 0%Q] 1 1 = Ok (score, i, j)).
Proof.
  apply (scorer_failure_conditions [1#2; 1#2] [1#2; 1#2; 0%Q] 1 1); lia.
Defined.

(** ** The scorer and the store *)

Lemma repr2_extend h news m x : repr2 h m x -> repr2 (h ++ news) m x.
Proof.
  intros (Hb & Hr & Hc & Hd). repeat split; try assumption.
  - rewrite length_app. lia.
  - rewrite lookup_app_l by exact Hb. exact Hd.
Qed.

Lemma load2_repr h m x : repr2 h m x -> Store.load2 m h = (h, Ok x).
Proof.
  intros (Hb & Hr & Hc & Hd). destruct x as [r c d]. cbn in *.
  unfold Store.load2, Store.load, mbind, Store.St_bind, mret, Store.St_ret.
  rewrite Hr, Hc, Hd. reflexivity.
Qed.

Lemma store2_repr h x :
  wf2 x ->
  exists m, Store.store2 x h = (h ++ [Np.data x], Ok m)
            /\ repr2 (h ++ [Np.data x]) m x.
Proof.
  intros Hwf. eexists. split; [reflexivity|].
  repeat split; cbn.
  - rewrite length_app. cbn. lia.
  - rewrite list_lookup_middle by reflexivity. cbn.
    apply take_ge. rewrite Hwf. lia.
Qed.

Lemma wf2_mask keep x : wf2 x -> wf2 (Np.mask_where keep x).
Proof. unfold wf2. cbn. rewrite length_imap. auto. Qed.

Lemma wf2_matmul a b m :
  wf2 a -> wf2 b -> Np.matmul a b = Ok m -> wf2 m.
Proof.
  unfold wf2, Np.matmul. intros Ha Hb.
  destruct (Nat.eqb_spec (Np.cols a) (Np.rows b)) as [E1|]; [|discriminate].
  destruct (Nat.eqb_spec (Np.cols a) 1) as [E2|]; [|discriminate].
  cbn. intros [= <-]. cbn. rewrite length_outer, Ha, Hb. nia.
Qed.

Lemma in_bounds_length h v :
  Store.in_bounds h v -> length (Store.contents h v) = Store.len1 v.
Proof.
  intros (buf & Hb & Hlen). unfold Store.contents. rewrite Hb. cbn.
  rewrite length_take, length_drop. lia.
Qed.

Lemma in_bounds_allocated h v : Store.in_bounds h v -> Store.base1 v < length h.
Proof. intros (buf & Hb & _). eapply lookup_lt_Some; eauto. Qed.

(** A slice of a view denotes the slice of what the view denotes. *)
Lemma contents_slice h v a b :
  Store.in_bounds h v ->
  Store.contents h (Store.slice v a b) = Py.slice (Store.contents h v) a b.
Proof.
  intros Hin. pose proof (in_bounds_length h v Hin) as Hlen.
  unfold Py.slice. rewrite Hlen.
  unfold Store.contents, Store.slice. cbn.
  set (n := Store.len1 v).
  set (x := Py.slice_bound n a). set (y := Py.slice_bound n b).
  set (buf := default [] (h !! Store.base1 v)).
  assert (x <= n) by apply slice_bound_le.
  assert (y <= n) by apply slice_bound_le.
  rewrite <- drop_drop.
  replace (drop x (take n (drop (Store.off1 v) buf)))
    with (take (n - x) (drop x (drop (Store.off1 v) buf))).
  - rewrite take_take. f_equal. lia.
  - rewrite take_drop_commute. f_equal. f_equal. lia.
Qed.

Lemma slice_in_bounds h v a b :
  Store.in_bounds h v -> Store.in_bounds h (Store.slice v a b).
Proof.
  intros (buf & Hb & Hlen). exists buf. split; [exact Hb|].
  unfold Store.slice. cbn.
  pose proof (slice_bound_le (Store.len1 v) a).
  pose proof (slice_bound_le (Store.len1 v) b). lia.
Qed.

(** [reshape] on a view follows [reshape] on the value it denotes. *)
Lemma reshape_view h v d0 d1 :
  Store.in_bounds h v ->
  match Np.reshape (Store.contents h v) d0 d1 with
  | Ok x => exists m, Store.reshape v d0 d1 h = (h, Ok m)
                      /\ repr2 h m x /\ wf2 x
  | Raise e => Store.reshape v d0 d1 h = (h, Raise e)
  end.
Proof.
  intros Hin. pose proof (in_bounds_length h v Hin) as Hlen.
  pose proof (in_bounds_allocated h v Hin) as Hb.
  unfold Np.reshape, Store.reshape, Store.lift, mbind, Store.St_bind, result_bind.
  rewrite Hlen.
  destruct (Np.reshape_shape (Store.len1 v) d0 d1) as [[r c]|e] eqn:E;
    [|reflexivity].
  pose proof (reshape_shape_size _ _ _ _ _ E) as Hsize.
  eexists. split; [reflexivity|]. split.
  - repeat split; cbn; try assumption.
    unfold Store.contents. rewrite Hsize. reflexivity.
  - unfold wf2. cbn. rewrite Hlen. lia.
Qed.

Lemma St_bind_Ok {A B} (c : Store.St A) (f : A -> Store.St B) h h' a :
  c h = (h', Ok a) -> (c ≫= f) h = f a h'.
Proof. intros H. unfold mbind, Store.St_bind. rewrite H. reflexivity. Qed.

Lemma St_bind_Raise {A B} (c : Store.St A) (f : A -> Store.St B) h h' e :
  c h = (h', Raise e) -> (c ≫= f) h = (h', Raise e).
Proof. intros H. unfold mbind, Store.St_bind. rewrite H. reflexivity. Qed.

Lemma refines_let {A B A' B'} (R : list (list Q) -> A -> B -> Prop)
    (R' : list (list Q) -> A' -> B' -> Prop) h c b f (r : result B') :
  refines R h c (Ok b) ->
  (forall news a, R (h ++ news) a b -> refines R' (h ++ news) (f a) r) ->
  refines R' h (c ≫= f) r.
Proof.
  intros [news (a & Hrun & HR)] Hk.
  destruct (Hk news a HR) as [news' Hf].
  exists (news ++ news'). rewrite app_assoc.
  rewrite (St_bind_Ok c f h _ a Hrun). exact Hf.
Qed.

Lemma refines_bind {A B A' B'} (R : list (list Q) -> A -> B -> Prop)
    (R' : list (list Q) -> A' -> B' -> Prop) h c r f g :
  refines R h c r ->
  (forall news a b, R (h ++ news) a b -> refines R' (h ++ news) (f a) (g b)) ->
  refines R' h (c ≫= f) (r ≫= g).
Proof.
  intros Hc Hk. destruct r as [b|e].
  - apply (refines_let R R' h c b f (g b) Hc). intros news a. apply Hk.
  - destruct Hc as [news Hc]. exists news.
    exact (St_bind_Raise c f h _ e Hc).
Qed.

Lemma refines_here {A B} (R : list (list Q) -> A -> B -> Prop) h c r :
  match r with
  | Ok b => exists a, c h = (h, Ok a) /\ R h a b
  | Raise e => c h = (h, Raise e)
  end ->
  refines R h c r.
Proof. intros H. exists []. rewrite app_nil_r. exact H. Qed.

Lemma refines_step {A A' B'} (R' : list (list Q) -> A' -> B' -> Prop)
    h (c : Store.St A) a (f : A -> Store.St A') (r : result B') :
  c h = (h, Ok a) -> refines R' h (f a) r -> refines R' h (c ≫= f) r.
Proof.
  intros Hc [news H]. exists news.
  rewrite (St_bind_Ok c f h h a Hc). exact H.
Qed.

Lemma refines_lift {A} h (r : result A) : refines same h (Store.lift r) r.
Proof.
  apply refines_here. destruct r as [a|e]; [|reflexivity].
  exists a. split; reflexivity.
Qed.

Lemma refines_ret {A} h (a : A) : refines same h (mret a) (Ok a).
Proof. apply refines_here. exists a. split; reflexivity. Qed.

Lemma refines_reshape h v d0 d1 :
  Store.in_bounds h v ->
  refines denotes2 h (Store.reshape v d0 d1)
    (Np.reshape (Store.contents h v) d0 d1).
Proof.
  intros Hin. apply refines_here.
  pose proof (reshape_view h v d0 d1 Hin) as H.
  destruct (Np.reshape (Store.contents h v) d0 d1) as [x|e]; [|exact H].
  destruct H as (m & Hrun & Hrepr & Hwf). exists m. split; [exact Hrun|].
  split; assumption.
Qed.

Lemma refines_store2 h x :
  wf2 x -> refines denotes2 h (Store.store2 x) (Ok x).
Proof.
  intros Hwf. destruct (store2_repr h x Hwf) as (m & Hrun & Hrepr).
  exists [Np.data x]. exists m. split; [exact Hrun|]. split; assumption.
Qed.

Lemma refines_matmul h a b x y :
  denotes2 h a x -> denotes2 h b y ->
  refines denotes2 h (Store.matmul a b) (Np.matmul x y).
Proof.
  intros [Ha Hwa] [Hb Hwb]. unfold Store.matmul.
  apply (refines_step _ h _ x _ _ (load2_repr h a x Ha)).
  apply (refines_step _ h _ y _ _ (load2_repr h b y Hb)).
  destruct (Np.matmul x y) as [m|e] eqn:E.
  - apply (refines_step _ h (Store.lift (Ok m)) m _ _ eq_refl).
    apply refines_store2. exact (wf2_matmul x y m Hwa Hwb E).
  - apply refines_here. reflexivity.
Qed.

Lemma refines_triu h m x k :
  denotes2 h m x -> refines denotes2 h (Store.triu m k) (Ok (Np.triu x k)).
Proof.
  intros [Hm Hw]. unfold Store.triu.
  apply (refines_step _ h _ x _ _ (load2_repr h m x Hm)).
  apply refines_store2. apply wf2_mask. exact Hw.
Qed.

Lemma refines_tril h m x k :
  denotes2 h m x -> refines denotes2 h (Store.tril m k) (Ok (Np.tril x k)).
Proof.
  intros [Hm Hw]. unfold Store.tril.
  apply (refines_step _ h _ x _ _ (load2_repr h m x Hm)).
  apply refines_store2. apply wf2_mask. exact Hw.
Qed.

Lemma refines_flatten h m x :
  denotes2 h m x -> refines denotes1 h (Store.flatten m) (Ok (Np.flatten x)).
Proof.
  intros [Hm Hw]. unfold Store.flatten.
  apply (refines_step _ h _ x _ _ (load2_repr h m x Hm)).
  exists [Np.flatten x]. eexists. split; [reflexivity|].
  unfold denotes1, Store.contents. cbn.
  rewrite list_lookup_middle by reflexivity. cbn. apply take_ge. lia.
Qed.

Lemma refines_argmax h v d :
  denotes1 h v d -> refines same h (Store.argmax v) (Np.argmax d).
Proof.
  intros Hd. unfold Store.argmax.
  apply (refines_step _ h (Store.load _ _ _) d).
  - unfold Store.load. rewrite <- Hd. reflexivity.
  - apply refines_lift.
Qed.

Lemma refines_getitem2 h m x i j :
  denotes2 h m x -> refines same h (Store.getitem2 m i j) (Np.getitem2 x i j).
Proof.
  intros [Hm Hw]. unfold Store.getitem2.
  apply (refines_step _ h _ x _ _ (load2_repr h m x Hm)).
  apply refines_lift.
Qed.

Lemma denotes2_extend h news m x : denotes2 h m x -> denotes2 (h ++ news) m x.
Proof. intros [H Hw]. split; [apply repr2_extend; exact H|exact Hw]. Qed.

Lemma contents_extend h news v :
  Store.in_bounds h v -> Store.contents (h ++ news) v = Store.contents h v.
Proof.
  intros Hin. unfold Store.contents.
  rewrite lookup_app_l by (apply in_bounds_allocated; exact Hin). reflexivity.
Qed.

Lemma in_bounds_extend h news v :
  Store.in_bounds h v -> Store.in_bounds (h ++ news) v.
Proof.
  intros (buf & Hb & Hlen). exists buf. split; [|exact Hlen].
  apply lookup_app_l_Some. exact Hb.
Qed.

(** The store-level scorer computes what the value-level scorer computes
    on the contents of its arguments, and only appends to the store. *)
Lemma store_scorer_refines h start_score end_score cs ce :
  Store.in_bounds h start_score -> Store.in_bounds h end_score ->
  exists news,
    Store.find_best_answer_window start_score end_score cs ce h
    = (h ++ news,
       find_best_answer_window
         (Store.contents h start_score) (Store.contents h end_score) cs ce).
Proof.
  intros Hs He.
  assert (Href : refines same h
            (Store.find_best_answer_window start_score end_score cs ce)
            (find_best_answer_window
               (Store.contents h start_score) (Store.contents h end_score) cs ce)).
  { unfold Store.find_best_answer_window, find_best_answer_window.
    rewrite <- !contents_slice by assumption.
    set (vs := Store.slice start_score cs ce).
    set (ve := Store.slice end_score cs ce).
    assert (Hvs : Store.in_bounds h vs) by (apply slice_in_bounds; exact Hs).
    assert (Hve : Store.in_bounds h ve) by (apply slice_in_bounds; exact He).
    eapply refines_bind; [apply refines_reshape; exact Hvs|].
    intros n1 a x Ha.
    rewrite <- (contents_extend h n1 ve Hve).
    eapply refines_bind;
      [apply refines_reshape; apply in_bounds_extend; exact Hve|].
    intros n2 b y Hb.
    eapply refines_bind;
      [apply refines_matmul; [apply denotes2_extend; exact Ha|exact Hb]|].
    intros n3 m0 x0 Hm0. cbv zeta.
    eapply refines_let; [apply refines_triu; exact Hm0|].
    intros n4 m1 Hm1.
    eapply refines_let; [apply refines_tril; exact Hm1|].
    intros n5 m2 Hm2.
    eapply refines_let; [apply refines_flatten; exact Hm2|].
    intros n6 v Hv.
    eapply refines_bind; [apply refines_argmax; exact Hv|].
    intros n7 k k' ->.
    replace (Store.cols2 m2) with (Np.cols (Np.tril (Np.triu x0 0) 16))
      by (symmetry; apply Hm2).
    eapply refines_bind; [apply refines_lift|].
    intros n8 [s1 e1] [s2 e2] [= -> ->].
    eapply refines_bind;
      [apply refines_getitem2; do 3 apply denotes2_extend; exact Hm2|].
    intros n9 q q' ->. apply refines_ret. }
  destruct Href as [news H]. exists news.
  destruct (find_best_answer_window _ _ cs ce) as [r|e]; [|exact H].
  destruct H as (r' & Hrun & ->). exact Hrun.
Qed.

(** C8. The scorer is pure and deterministic: called on arrays held in a
    store, it returns what the value-level function returns on their
    contents; a second call with the same arguments returns the same
    result; and after each call every buffer that existed before, the two
    score vectors included, is unchanged. *)
Theorem scorer_is_pure h start_score end_score cs ce :
  Store.in_bounds h start_score -> Store.in_bounds h end_score ->
  exists h1 h2 r,
    Store.find_best_answer_window start_score end_score cs ce h = (h1, r)
    /\ Store.find_best_answer_window start_score end_score cs ce h1 = (h2, r)
    /\ r = find_best_answer_window
             (Store.contents h start_score) (Store.contents h end_score) cs ce
    /\ Store.contents h1 start_score = Store.contents h start_score
    /\ Store.contents h1 end_score = Store.contents h end_score
    /\ Store.contents h2 start_score = Store.contents h start_score
    /\ Store.contents h2 end_score = Store.contents h end_score
    /\ (forall l buf, h !! l = Some buf ->
          h1 !! l = Some buf /\ h2 !! l = Some buf).
Proof.
  intros Hs He.
  destruct (store_scorer_refines h start_score end_score cs ce Hs He)
    as [n1 Hrun1].
  destruct (store_scorer_refines (h ++ n1) start_score end_score cs ce
              (in_bounds_extend h n1 _ Hs) (in_bounds_extend h n1 _ He))
    as [n2 Hrun2].
  rewrite !contents_extend in Hrun2 by assumption.
  exists (h ++ n1), ((h ++ n1) ++ n2),
    (find_best_answer_window
       (Store.contents h start_score) (Store.contents h end_score) cs ce).
  split; [exact Hrun1|]. split; [exact Hrun2|]. split; [reflexivity|].
  rewrite <- app_assoc, !contents_extend by assumption.
  repeat split; try reflexivity;
    apply lookup_app_l_Some; assumption.
Qed.

Lemma scorer_is_pure_witness :
  exists h1 h2 r,
    Store.find_best_answer_window (Store.View1 0 1 4) (Store.View1 1 0 4) 0 4
      [[0%Q; 1#10; 1#10; 7#10; 1#10]; [1#10; 1#10; 1#10; 7#10]] = (h1, r)
    /\ Store.find_best_answer_window (Store.View1 0 1 4) (Store.View1 1 0 4) 0 4 h1
       = (h2, r)
    /\ r = find_best_answer_window
             (Store.contents [[0%Q; 1#10; 1#10; 7#10; 1#10]; [1#10; 1#10; 1#10; 7#10]]
                (Store.View1 0 1 4))
             (Store.contents [[0%Q; 1#10; 1#10; 7#10; 1#10]; [1#10; 1#10; 1#10; 7#10]]
                (Store.View1 1 0 4)) 0 4
    /\ Store.contents h1 (Store.View1 0 1 4)
       = Store.contents [[0%Q; 1#10; 1#10; 7#10; 1#10]; [1#10; 1#10; 1#10; 7#10]]
           (Store.View1 0 1 4)
    /\ Store.contents h1 (Store.View1 1 0 4)
       = Store.contents [[0%Q; 1#10; 1#10; 7#10; 1#10]; [1#10; 1#10; 1#10; 7#10]]
           (Store.View1 1 0 4)
    /\ Store.contents h2 (Store.View1 0 1 4)
       = Store.contents [[0%Q; 1#10; 1#10; 7#10; 1#10]; [1#10; 1#10; 1#10; 7#10]]
           (Store.View1 0 1 4)
    /\ Store.contents h2 (Store.View1 1 0 4)
       = Store.contents [[0%Q; 1#10; 1#10; 7#10; 1#10]; [1#10; 1#10; 1#10; 7#10]]
           (Store.View1 1 0 4)
    /\ (forall l buf,
          [[0%Q; 1#10; 1#10; 7#10; 1#10]; [1#10; 1#10; 1#10; 7#10]] !! l = Some buf ->
          h1 !! l = Some buf /\ h2 !! l = Some buf).
Proof.
  apply (scorer_is_pure
           [[0%Q; 1#10; 1#10; 7#10; 1#10]; [1#10; 1#10; 1#10; 7#10]]
           (Store.View1 0 1 4) (Store.View1 1 0 4) 0 4).
  - eexists. split; [reflexivity|]. simpl. lia.
  - eexists. split; [reflexivity|]. simpl. lia.
Defined.

(** ** Claims about the callers *)

(** C10. For every question and context token list, [prepare_input]
    produces [input_ids], [attention_mask] and [token_type_ids] of the
    same length [len(question_tokens) + len(context_tokens) + 3];
    [attention_mask] is all ones; [token_type_ids] is 0 on the first
    [len(question_tokens) + 2] positions and 1 on the remaining
    [len(context_tokens) + 1]. *)
Theorem prepare_input_layout cls_token sep_token
    (question_tokens context_tokens : list Z) (input_keys : list string) :
  let n := length question_tokens + length context_tokens + 3 in
  let input_dict := prepare_input cls_token sep_token
                      question_tokens context_tokens input_keys in
  exists ids mask types : list Z,
    input_dict !! "input_ids" = Some [ids]
    /\ input_dict !! "attention_mask" = Some [mask]
    /\ input_dict !! "token_type_ids" = Some [types]
    /\ length ids = n /\ length mask = n /\ length types = n
    /\ mask = replicate n 1%Z
    /\ types = replicate (length question_tokens + 2) 0%Z
               ++ replicate (length context_tokens + 1) 1%Z
    /\ (forall k, k < length question_tokens + 2 -> types !! k = Some 0%Z)
    /\ (forall k, length question_tokens + 2 <= k < n -> types !! k = Some 1%Z).
Proof.
  intros n input_dict.
  set (ids := [cls_token] ++ question_tokens ++ [sep_token]
                ++ context_tokens ++ [sep_token]).
  assert (Hn : length ids = n).
  { unfold ids, n. rewrite !length_app. cbn. lia. }
  set (types := replicate (length question_tokens + 2) 0%Z
                ++ replicate (length context_tokens + 1) 1%Z).
  exists (int32 <$> ids), (replicate n 1%Z), types.
  assert (Hmask : int32 <$> replicate (length ids) 1%Z = replicate n 1%Z).
  { rewrite fmap_replicate, Hn. reflexivity. }
  assert (Htypes : int32 <$> types = types).
  { unfold types. rewrite fmap_app, !fmap_replicate. reflexivity. }
  assert (Hlookups :
    input_dict !! "input_ids" = Some [int32 <$> ids]
    /\ input_dict !! "attention_mask" = Some [replicate n 1%Z]
    /\ input_dict !! "token_type_ids" = Some [types]).
  { unfold input_dict, prepare_input, int32_row. fold ids. fold types.
    rewrite Hmask, Htypes.
    destruct (bool_decide ("position_ids" ∈ input_keys));
      repeat split; simplify_map_eq; reflexivity. }
  destruct Hlookups as (H1 & H2 & H3).
  split; [exact H1|]. split; [exact H2|]. split; [exact H3|].
  split; [rewrite length_fmap; exact Hn|].
  split; [apply length_replicate|].
  split; [unfold types, n; rewrite length_app, !length_replicate; lia|].
  split; [reflexivity|]. split; [reflexivity|].
  split.
  - intros k Hk. unfold types.
    rewrite lookup_app_l by (rewrite length_replicate; exact Hk).
    apply lookup_replicate_2. exact Hk.
  - intros k Hk. unfold types.
    rewrite lookup_app_r by (rewrite length_replicate; lia).
    rewrite length_replicate. apply lookup_replicate_2. unfold n in Hk. lia.
Qed.

Lemma getitem_nat {A} (l : list A) k x :
  l !! k = Some x -> Py.getitem l (Z.of_nat k) = Ok x.
Proof.
  intros Hx. pose proof (lookup_lt_Some _ _ _ Hx) as Hk.
  unfold Py.getitem. cbv zeta.
  assert (E : (Z.of_nat k <? 0)%Z = false) by (apply Z.ltb_ge; lia).
  rewrite E. rewrite E.
  assert (E' : (Z.of_nat (length l) <=? Z.of_nat k)%Z = false)
    by (apply Z.leb_gt; lia).
  rewrite E'. cbn [orb]. rewrite Nat2Z.id, Hx. reflexivity.
Qed.

Lemma length_get_score exp logits : length (get_score exp logits) = length logits.
Proof. unfold get_score. rewrite !length_fmap. reflexivity. Qed.

(** C3 as stated fails.  With an empty question the context starts at
    token 2 of the sequence; on six equal logits (softmax 1/6 each, the
    exponential being 1 at logit 0) the best window is the context-local
    pair (0, 0).  [postprocess] reads span 0 of the map, characters 0 to 3;
    shifting the pair by [context_start_idx] first, as the claim words it,
    would read span 2, characters 7 to 9. *)
Lemma span_lookup_counterexample :
  postprocess sample_exp [0%Q; 0%Q; 0%Q; 0%Q; 0%Q; 0%Q] [0%Q; 0%Q; 0%Q; 0%Q; 0%Q; 0%Q]
    [] [(0, 3); (4, 6); (7, 9)]%Z 6
  = Ok (1#36, 0%Z, 3%Z)
  /\ postprocess_as_specified sample_exp
       [0%Q; 0%Q; 0%Q; 0%Q; 0%Q; 0%Q] [0%Q; 0%Q; 0%Q; 0%Q; 0%Q; 0%Q]
       [] [(0, 3); (4, 6); (7, 9)]%Z 6
     = Ok (1#36, 7%Z, 9%Z).
Proof. split; vm_compute; reflexivity. Qed.

(** C3, amended.  When the tokenizer returns one span per context token,
    the context is not empty and the model returns one logit per input
    token, the scorer returns context-local indices [i] and [j] that are
    positions of the span map itself; [postprocess] looks them up there
    unshifted, taking the first character of span [i] and the last of
    span [j], and [get_best_answer] returns that slice of the original
    context string together with the score. *)
Theorem answer_offsets_from_local_indices
    cls_token sep_token exp lower text_to_tokens infer
    (question context : string) (vocab : gmap string Z) (input_keys : list string) :
  let context_tokens := (text_to_tokens (lower context) vocab).1 in
  let spans := (text_to_tokens (lower context) vocab).2 in
  let question_tokens := (text_to_tokens (lower question) vocab).1 in
  let outputs :=
    infer (prepare_input cls_token sep_token question_tokens context_tokens input_keys) in
  let input_size :=
    (Z.of_nat (length context_tokens) + Z.of_nat (length question_tokens) + 3)%Z in
  length spans = length context_tokens ->
  context_tokens <> [] ->
  Z.of_nat (length outputs.1) = input_size ->
  Z.of_nat (length outputs.2) = input_size ->
  exists score i j span_i span_j,
    find_best_answer_window (get_score exp outputs.1) (get_score exp outputs.2)
      (Z.of_nat (length question_tokens) + 2) (input_size - 1)
    = Ok (score, Z.of_nat i, Z.of_nat j)
    /\ spans !! i = Some span_i
    /\ spans !! j = Some span_j
    /\ postprocess exp outputs.1 outputs.2 question_tokens spans input_size
       = Ok (score, span_i.1, span_j.2)
    /\ get_best_answer cls_token sep_token exp lower text_to_tokens infer
         question context vocab input_keys
       = Ok (str_slice context span_i.1 span_j.2, score).
Proof.
  intros context_tokens spans question_tokens outputs input_size
    Hspans Hne Hout1 Hout2.
  set (cs := (Z.of_nat (length question_tokens) + 2)%Z).
  set (ce := (input_size - 1)%Z).
  assert (Hlen : length context_tokens <> 0)
    by (destruct context_tokens; [congruence|discriminate]).
  assert (HL : Z.to_nat (ce - cs) = length context_tokens)
    by (unfold ce, cs, input_size; lia).
  destruct (region_returns (get_score exp outputs.1) (get_score exp outputs.2) cs ce)
    as (p & Hp & _ & Hrun).
  { unfold cs. lia. }
  { unfold ce, cs, input_size. lia. }
  { rewrite length_get_score, Hout1. unfold ce. lia. }
  { rewrite length_get_score, Hout2. unfold ce. lia. }
  { unfold ce, cs, input_size. lia. }
  rewrite HL in Hp, Hrun.
  set (L := length context_tokens) in *.
  assert (Hi : p / L < length spans)
    by (rewrite Hspans; apply Nat.Div0.div_lt_upper_bound; exact Hp).
  assert (Hj : p mod L < length spans)
    by (rewrite Hspans; apply Nat.mod_upper_bound; exact Hlen).
  destruct (lookup_lt_is_Some_2 spans _ Hi) as [span_i Hsi].
  destruct (lookup_lt_is_Some_2 spans _ Hj) as [span_j Hsj].
  assert (Hpost :
    postprocess exp outputs.1 outputs.2 question_tokens spans input_size
    = Ok (entry (Py.slice (get_score exp outputs.1) cs ce)
                (Py.slice (get_score exp outputs.2) cs ce) p,
          span_i.1, span_j.2)).
  { unfold postprocess. fold cs ce. rewrite Hrun.
    cbn [mbind result_bind].
    rewrite (getitem_nat spans _ _ Hsi), (getitem_nat spans _ _ Hsj).
    reflexivity. }
  eexists _, (p / L), (p mod L), span_i, span_j.
  split; [exact Hrun|]. split; [exact Hsi|]. split; [exact Hsj|].
  split; [exact Hpost|].
  unfold get_best_answer.
  fold context_tokens spans question_tokens in Hpost |- *.
  destruct (text_to_tokens (lower context) vocab) as [ctoks cspans] eqn:Ec.
  destruct (text_to_tokens (lower question) vocab) as [qtoks qspans] eqn:Eq.
  cbn [fst snd] in *.
  subst context_tokens spans question_tokens.
  fold outputs. destruct outputs as [out_s out_e] eqn:Eo.
  cbn [fst snd] in *. unfold input_size, L in Hpost.
  rewrite Hpost. reflexivity.
Qed.

Lemma answer_offsets_from_local_indices_witness :
  exists score i j span_i span_j,
    find_best_answer_window
      (get_score sample_exp (sample_infer ∅).1) (get_score sample_exp (sample_infer ∅).2)
      (Z.of_nat (length [5%Z]) + 2) (Z.of_nat 3 + Z.of_nat 1 + 3 - 1)
    = Ok (score, Z.of_nat i, Z.of_nat j)
    /\ [(0, 3); (4, 6); (7, 9)]%Z !! i = Some span_i
    /\ [(0, 3); (4, 6); (7, 9)]%Z !! j = Some span_j
    /\ postprocess sample_exp (sample_infer ∅).1 (sample_infer ∅).2
         [5%Z] [(0, 3); (4, 6); (7, 9)]%Z (Z.of_nat 3 + Z.of_nat 1 + 3)
       = Ok (score, span_i.1, span_j.2)
    /\ get_best_answer 101 102 sample_exp sample_lower sample_tokenizer sample_infer
         "who" "the cat sat" ∅ []
       = Ok (str_slice "the cat sat" span_i.1 span_j.2, score).
Proof.
  apply (answer_offsets_from_local_indices 101 102 sample_exp sample_lower
           sample_tokenizer sample_infer "who" "the cat sat" ∅ []).
  - reflexivity.
  - discriminate.
  - reflexivity.
  - reflexivity.
Defined.

(** * Further properties *)

(** ** The scorer *)

(** X2. Whatever its arguments, the scorer raises nothing but
    [ValueError]: neither the final indexing nor [divmod] can fail once
    [argmax] has returned. *)
Theorem scorer_only_raises_ValueError start_score end_score cs ce e :
  find_best_answer_window start_score end_score cs ce = Raise e ->
  e = ValueError.
Proof.
  intros H.
  destruct (classic_fit start_score end_score cs ce) as [Hfit|Hfit].
  - rewrite (scorer_unfold _ _ _ _ Hfit) in H. cbv zeta in H.
    destruct (Np.argmax _) as [p|e']; [discriminate|]. congruence.
  - rewrite (scorer_misfit _ _ _ _ Hfit) in H. congruence.
Qed.

Lemma scorer_only_raises_ValueError_witness : ValueError = ValueError.
Proof.
  apply (scorer_only_raises_ValueError [1#2; 1#2] [1#2] 0 2 ValueError).
  vm_compute. reflexivity.
Defined.

(** Two arrays that agree on a range have the same slice there. *)
Lemma slice_agree {A} (l l' : list A) (a b : Z) :
  (0 <= a <= b)%Z ->
  (b <= Z.of_nat (length l))%Z -> (b <= Z.of_nat (length l'))%Z ->
  (forall k, Z.to_nat a <= k < Z.to_nat b -> l !! k = l' !! k) ->
  Py.slice l a b = Py.slice l' a b.
Proof.
  intros Hab Hl Hl' Hagree.
  destruct (slice_segment l a b Hab Hl) as [Hlen Hlook].
  destruct (slice_segment l' a b Hab Hl') as [Hlen' Hlook'].
  apply list_eq. intros i.
  destruct (Nat.lt_ge_cases i (Z.to_nat (b - a))) as [Hi|Hi].
  - rewrite Hlook, Hlook' by exact Hi. apply Hagree. lia.
  - rewrite !lookup_ge_None_2 by lia. reflexivity.
Qed.

(** X3. The scorer reads its score vectors only inside the context
    region: two calls whose vectors agree on
    [context_start_idx <= k < context_end_idx] give the same result,
    whatever the scores of the question and separator tokens and whatever
    the lengths of the vectors beyond [context_end_idx]. *)
Theorem scorer_reads_only_context start_score end_score start_score' end_score' cs ce :
  (0 <= cs <= ce)%Z ->
  (ce <= Z.of_nat (length start_score))%Z ->
  (ce <= Z.of_nat (length start_score'))%Z ->
  (ce <= Z.of_nat (length end_score))%Z ->
  (ce <= Z.of_nat (length end_score'))%Z ->
  (forall k, Z.to_nat cs <= k < Z.to_nat ce ->
     start_score !! k = start_score' !! k /\ end_score !! k = end_score' !! k) ->
  find_best_answer_window start_score end_score cs ce
  = find_best_answer_window start_score' end_score' cs ce.
Proof.
  intros Hcs Hs Hs' He He' Hagree.
  rewrite (scorer_unfold start_score end_score cs ce)
    by (apply region_fits; lia).
  rewrite (scorer_unfold start_score' end_score' cs ce)
    by (apply region_fits; lia).
  rewrite (slice_agree start_score start_score' cs ce Hcs Hs Hs')
    by (intros k Hk; apply Hagree; exact Hk).
  rewrite (slice_agree end_score end_score' cs ce Hcs He He')
    by (intros k Hk; apply Hagree; exact Hk).
  reflexivity.
Qed.

Lemma scorer_reads_only_context_witness :
  find_best_answer_window [9#10; 1#4; 3#4] [0%Q; 1#2; 1#2] 1 3
  = find_best_answer_window [0%Q; 1#4; 3#4; 5#1] [7#1; 1#2; 1#2] 1 3.
Proof.
  apply (scorer_reads_only_context
           [9#10; 1#4; 3#4] [0%Q; 1#2; 1#2] [0%Q; 1#4; 3#4; 5#1] [7#1; 1#2; 1#2] 1 3);
    try (simpl; lia).
  intros k Hk.
  assert (k = 1 \/ k = 2) as [->| ->] by lia; split; reflexivity.
Defined.

(** On an empty or inverted region of non-negative bounds the scorer
    raises. *)
Lemma scorer_empty_region start_score end_score cs ce :
  (0 <= cs)%Z -> (0 <= ce)%Z -> (ce <= cs)%Z ->
  find_best_answer_window start_score end_score cs ce = Raise ValueError.
Proof.
  intros Hcs Hce Hempty.
  destruct (classic_fit start_score end_score cs ce) as [Hfit|Hfit];
    [|apply scorer_misfit; exact Hfit].
  rewrite (scorer_unfold _ _ _ _ Hfit). cbv zeta.
  rewrite (slice_empty start_score cs ce) by assumption.
  rewrite masked_nil_l. reflexivity.
Qed.


(** Multiplying both vectors by positive constants *)













(** ** The softmax of [postprocess] *)














(** ** From the window to the answer text *)






Lemma get_best_answer_without_tokens
    cls_token sep_token exp lower text_to_tokens infer
    (question context : string) (vocab : gmap string Z) (input_keys : list string) :
  (text_to_tokens (lower context) vocab).1 = [] ->
  get_best_answer cls_token sep_token exp lower text_to_tokens infer
    question context vocab input_keys
  = Raise ValueError.
Proof.
  intros Hnone. unfold get_best_answer.
  destruct (text_to_tokens (lower context) vocab) as [ctoks spans].
  destruct (text_to_tokens (lower question) vocab) as [qtoks qspans].
  cbn [fst] in Hnone. subst ctoks.
  destruct (infer _) as [out_s out_e].
  unfold postprocess.
  rewrite scorer_empty_region by (cbn [length]; lia).
  reflexivity.
Qed.

(** X8. A context in which the tokenizer finds no token makes
    [get_best_answer] raise [ValueError], whatever the question and
    whatever the model returns: the context region handed to the scorer
    is empty. *)
Theorem no_context_tokens_raises
    cls_token sep_token exp lower text_to_tokens infer
    (question context : string) (vocab : gmap string Z) (input_keys : list string) :
  (text_to_tokens (lower context) vocab).1 = [] ->
  get_best_answer cls_token sep_token exp lower text_to_tokens infer
    question context vocab input_keys
  = Raise ValueError.
Proof. apply get_best_answer_without_tokens. Qed.

Lemma no_context_tokens_raises_witness :
  get_best_answer 101 102 sample_exp sample_lower
    (fun _ _ => ([], [])) sample_infer "who" "   " ∅ []
  = Raise ValueError.
Proof.
  apply (no_context_tokens_raises 101 102 sample_exp sample_lower
           (fun _ _ => ([], [])) sample_infer "who" "   " ∅ []).
  reflexivity.
Defined.

Lemma string_of_list_ascii_app l1 l2 :
  String.string_of_list_ascii (l1 ++ l2)
  = String.string_of_list_ascii l1 +:+ String.string_of_list_ascii l2.
Proof. induction l1 as [|c l1 IH]; cbn; [reflexivity|]. rewrite IH. reflexivity. Qed.

Lemma str_slice_substring s a b :
  exists before after, s = before +:+ str_slice s a b +:+ after.
Proof.
  unfold str_slice, Py.slice.
  set (l := String.list_ascii_of_string s).
  set (m := Py.slice_bound (length l) a).
  set (n := Py.slice_bound (length l) b - m).
  exists (String.string_of_list_ascii (take m l)),
         (String.string_of_list_ascii (drop n (drop m l))).
  rewrite <- !string_of_list_ascii_app, take_drop, take_drop.
  unfold l. symmetry. apply String.string_of_list_ascii_of_string.
Qed.

(** X9. Whenever [get_best_answer] returns, the answer is a contiguous
    piece of the original context string, in its original case. *)
Theorem answer_is_part_of_context
    cls_token sep_token exp lower text_to_tokens infer
    (question context : string) (vocab : gmap string Z) (input_keys : list string)
    answer score :
  get_best_answer cls_token sep_token exp lower text_to_tokens infer
    question context vocab input_keys
  = Ok (answer, score) ->
  exists before after, context = before +:+ answer +:+ after.
Proof.
  unfold get_best_answer.
  destruct (text_to_tokens (lower context) vocab) as [ctoks spans].
  destruct (text_to_tokens (lower question) vocab) as [qtoks qspans].
  destruct (infer _) as [out_s out_e].
  destruct (postprocess _ _ _ _ _ _) as [[[sc a] b]|e]; [|discriminate].
  cbn. intros [= <- _]. apply str_slice_substring.
Qed.

Lemma answer_is_part_of_context_witness :
  exists before after, "the cat sat" = before +:+ "the" +:+ after.
Proof.
  apply (answer_is_part_of_context 101 102 sample_exp sample_lower
           sample_tokenizer sample_infer "who" "the cat sat" ∅ [] "the" (1#49)).
  vm_compute. reflexivity.
Defined.

(** ** The model input *)

(** X10. The dictionary built by [prepare_input] has the three keys
    [input_ids], [attention_mask] and [token_type_ids], the key
    [position_ids] exactly when the model lists an input of that name, and
    no other key; [position_ids] then counts the positions 0, 1, 2, ... of
    the sequence. *)
Theorem prepare_input_keys cls_token sep_token
    (question_tokens context_tokens : list Z) (input_keys : list string) :
  let n := length question_tokens + length context_tokens + 3 in
  let input_dict := prepare_input cls_token sep_token
                      question_tokens context_tokens input_keys in
  dom input_dict
  = ({["input_ids"; "attention_mask"; "token_type_ids"]}
     ∪ (if bool_decide ("position_ids" ∈ input_keys)
        then {["position_ids"]} else ∅) : gset string)
  /\ input_dict !! "position_ids"
     = (if bool_decide ("position_ids" ∈ input_keys)
        then Some [int32 <$> arange n] else None)
  /\ length (int32 <$> arange n) = n
  /\ forall p, p < n -> (Z.of_nat n <= 2 ^ 31)%Z ->
       (int32 <$> arange n) !! p = Some (Z.of_nat p).
Proof.
  intros n input_dict.
  assert (Hn : length ([cls_token] ++ question_tokens ++ [sep_token]
                       ++ context_tokens ++ [sep_token]) = n).
  { unfold n. rewrite !length_app. cbn. lia. }
  split; [|split; [|split]].
  - unfold input_dict, prepare_input.
    destruct (bool_decide ("position_ids" ∈ input_keys));
      rewrite ?dom_insert_L, dom_empty_L; set_solver.
  - unfold input_dict, prepare_input. rewrite Hn.
    destruct (bool_decide ("position_ids" ∈ input_keys)); simplify_map_eq;
      reflexivity.
  - unfold arange. rewrite !length_fmap, length_seq. reflexivity.
  - intros p Hp Hsmall. unfold arange.
    rewrite !list_lookup_fmap, lookup_seq_lt by exact Hp. cbn. f_equal.
    unfold int32. rewrite Z.mod_small by lia. lia.
Qed.



(** ** Loading the context *)

Lemma load_context_loop urlparse sources : forall input_urls paragraphs,
  foldl (fun '(input_urls, paragraphs) source =>
           if is_url urlparse source
           then (input_urls ++ [source], paragraphs)
           else (input_urls, paragraphs ++ [source]))
        (input_urls, paragraphs) sources
  = (input_urls ++ filter (fun s => is_url urlparse s = true) sources,
     paragraphs ++ filter (fun s => is_url urlparse s = false) sources).
Proof.
  induction sources as [|source sources IH]; intros input_urls paragraphs.
  - cbn. rewrite !app_nil_r. reflexivity.
  - cbn [foldl]. destruct (is_url urlparse source) eqn:E; rewrite IH.
    + rewrite (filter_cons_True _ source) by exact E.
      rewrite (filter_cons_False _ source) by congruence.
      rewrite <- app_assoc. reflexivity.
    + rewrite (filter_cons_False _ source) by congruence.
      rewrite (filter_cons_True _ source) by exact E.
      rewrite <- app_assoc. reflexivity.
Qed.

Lemma load_context_paragraphs urlparse get_paragraphs (sources : list string) :
  load_context urlparse get_paragraphs sources
  = String.concat newline
      (filter (fun s => is_url urlparse s = false) sources
       ++ get_paragraphs (filter (fun s => is_url urlparse s = true) sources)).
Proof.
  unfold load_context. rewrite load_context_loop. reflexivity.
Qed.

(** X12. [load_context] joins with line breaks, first the sources that
    are not URLs, in the order given, then the paragraphs the reader
    returns for the URL sources, themselves passed in the order given;
    a source counts as a URL when both its scheme and its network
    location are non-empty. *)
Theorem load_context_order urlparse get_paragraphs (sources : list string) :
  load_context urlparse get_paragraphs sources
  = String.concat newline
      (filter (fun s => is_url urlparse s = false) sources
       ++ get_paragraphs (filter (fun s => is_url urlparse s = true) sources))
  /\ forall source,
       is_url urlparse source = true
       <-> (urlparse source).1 <> "" /\ (urlparse source).2 <> "".
Proof.
  split; [apply load_context_paragraphs|].
  intros source. unfold is_url, truthy.
  destruct (urlparse source) as [scheme netloc]. cbn [fst snd].
  rewrite andb_true_iff, !negb_true_iff.
  destruct (String.eqb_spec scheme ""), (String.eqb_spec netloc ""); intuition congruence.
Qed.

Lemma append_empty a b : a +:+ b = "" -> a = "" /\ b = "".
Proof. destruct a; cbn; [auto|discriminate]. Qed.

Lemma concat_empty sep (l : list string) :
  sep <> "" -> (String.concat sep l = "" <-> l = [] \/ l = [""]).
Proof.
  intros Hsep. split.
  - destruct l as [|x [|y l]]; cbn.
    + auto.
    + intros ->. auto.
    + intros H. apply append_empty in H as [_ H].
      apply append_empty in H as [H _]. congruence.
  - intros [->| ->]; reflexivity.
Qed.

(** X13. The context [load_context] returns is the empty string exactly
    when there is no paragraph at all or a single, empty one: two blank
    paragraphs already give a context of one line break. *)
Theorem load_context_empty urlparse get_paragraphs (sources : list string) :
  let paragraphs :=
    filter (fun s => is_url urlparse s = false) sources
    ++ get_paragraphs (filter (fun s => is_url urlparse s = true) sources) in
  String.length (load_context urlparse get_paragraphs sources) = 0
  <-> paragraphs = [] \/ paragraphs = [""].
Proof.
  intros paragraphs.
  rewrite load_context_paragraphs. fold paragraphs.
  rewrite <- (concat_empty newline paragraphs) by discriminate.
  destruct (String.concat newline paragraphs); cbn; split;
    first [reflexivity | discriminate].
Qed.

(** ** The interactive loop *)

Section Session.

Variable cls_token sep_token : Z.
Variable exp : Q -> Q.
Variable lower : string -> string.
Variable text_to_tokens : string -> gmap string Z -> list Z * list (Z * Z).
Variable infer : gmap string (list (list Z)) -> list Q * list Q.
Variable vocab : gmap string Z.
Variable input_keys : list string.
Variable urlparse : string -> string * string.
Variable get_paragraphs : list string -> list string.
Variable perf_counter : nat -> Q.
Variable format_2f : Q -> string.
Variable format_sources : list string -> string.

Let ask (context question : string) : result (string * Q) :=
  get_best_answer cls_token sep_token exp lower text_to_tokens infer
    question context vocab input_keys.

Let loop := question_loop cls_token sep_token exp lower text_to_tokens infer
              vocab input_keys perf_counter format_2f.

Let run := run_question_answering cls_token sep_token exp lower text_to_tokens
             infer vocab input_keys urlparse get_paragraphs perf_counter
             format_2f format_sources.

(** The loop answers a run of answerable questions one after the other. *)
Lemma loop_answers context questions : forall lines out ticks,
  Forall (answered (ask context)) questions ->
  loop context (questions ++ lines) out ticks
  = loop context lines
      (out ++ transcript (ask context) perf_counter format_2f questions ticks)
      (ticks + 2 * length questions).
Proof.
  induction questions as [|question questions IH]; intros lines out ticks Hall.
  - cbn. rewrite app_nil_r, Nat.add_0_r. reflexivity.
  - apply Forall_cons in Hall as [[Hne (answer & score & Hask)] Hall].
    cbn [app transcript]. unfold loop. cbn [question_loop]. fold loop.
    destruct (String.eqb_spec question ""); [congruence|].
    fold (ask context question). rewrite Hask.
    rewrite IH by exact Hall. rewrite <- app_assoc.
    f_equal. cbn [length]. lia.
Qed.

(** X14. A session on a non-empty context: the questions typed before
    the first empty line, when each is answered, are answered in order,
    four printed lines each after the [Context:] line; the run returns at
    the empty line, leaves what follows it unread, and has read the clock
    twice per question. *)
Theorem session_ends_at_empty_line sources questions unread w :
  load_context urlparse get_paragraphs sources <> "" ->
  Forall (answered (ask (load_context urlparse get_paragraphs sources))) questions ->
  stdin w = questions ++ "" :: unread ->
  run sources w
  = (World unread
       (stdout w ++ ["Context: " +:+ format_sources sources]
        ++ transcript (ask (load_context urlparse get_paragraphs sources))
             perf_counter format_2f questions (clock w))
       (clock w + 2 * length questions),
     Returned).
Proof.
  intros Hctx Hall Hin. unfold run, run_question_answering.
  destruct (String.length _ =? 0) eqn:E.
  { apply Nat.eqb_eq in E. exfalso. apply Hctx.
    destruct (load_context urlparse get_paragraphs sources); [reflexivity|discriminate]. }
  rewrite Hin. fold loop. rewrite loop_answers by exact Hall.
  unfold loop. cbn [question_loop]. rewrite <- app_assoc. reflexivity.
Qed.

(** X15. A question the answer pipeline raises on ends the session with
    that exception: what was printed for the questions before it stays,
    nothing is printed for it, and the lines after it are not read. *)
Theorem session_aborts_on_error sources questions question unread w e :
  load_context urlparse get_paragraphs sources <> "" ->
  Forall (answered (ask (load_context urlparse get_paragraphs sources))) questions ->
  question <> "" ->
  ask (load_context urlparse get_paragraphs sources) question = Raise e ->
  stdin w = questions ++ question :: unread ->
  run sources w
  = (World unread
       (stdout w ++ ["Context: " +:+ format_sources sources]
        ++ transcript (ask (load_context urlparse get_paragraphs sources))
             perf_counter format_2f questions (clock w))
       (S (clock w + 2 * length questions)),
     Raised e).
Proof.
  intros Hctx Hall Hne Hraise Hin. unfold run, run_question_answering.
  destruct (String.length _ =? 0) eqn:E.
  { apply Nat.eqb_eq in E. exfalso. apply Hctx.
    destruct (load_context urlparse get_paragraphs sources); [reflexivity|discriminate]. }
  rewrite Hin. fold loop. rewrite loop_answers by exact Hall.
  unfold loop. cbn [question_loop].
  destruct (String.eqb_spec question ""); [congruence|].
  fold (ask (load_context urlparse get_paragraphs sources) question).
  rewrite Hraise. rewrite <- app_assoc. reflexivity.
Qed.

(** X16. With no paragraph, or a single empty one, the run prints the
    [Context:] line and the error message, reads no line of input and no
    clock, and returns. *)
Theorem empty_context_is_reported sources w :
  (let paragraphs :=
     filter (fun s => is_url urlparse s = false) sources
     ++ get_paragraphs (filter (fun s => is_url urlparse s = true) sources) in
   paragraphs = [] \/ paragraphs = [""]) ->
  run sources w
  = (World (stdin w)
       (stdout w ++ ["Context: " +:+ format_sources sources;
                     "Error: Empty context or outside paragraphs"])
       (clock w),
     Returned).
Proof.
  intros Hempty. unfold run, run_question_answering.
  rewrite load_context_paragraphs.
  rewrite (proj2 (concat_empty newline _ ltac:(discriminate)) Hempty).
  cbn. rewrite <- app_assoc. reflexivity.
Qed.

(** X18. The empty-context check looks at the context string, not at
    its tokens: when the context is not empty but the tokenizer finds no
    token in it, the check passes and the first question ends the session
    with [ValueError], nothing being printed after the [Context:] line. *)
Theorem blank_context_aborts_session sources question unread w :
  load_context urlparse get_paragraphs sources <> "" ->
  (text_to_tokens (lower (load_context urlparse get_paragraphs sources)) vocab).1 = [] ->
  question <> "" ->
  stdin w = question :: unread ->
  run sources w
  = (World unread (stdout w ++ ["Context: " +:+ format_sources sources])
       (S (clock w)),
     Raised ValueError).
Proof.
  intros Hctx Hnone Hne Hin. unfold run, run_question_answering.
  destruct (String.length _ =? 0) eqn:E.
  { apply Nat.eqb_eq in E. exfalso. apply Hctx.
    destruct (load_context urlparse get_paragraphs sources); [reflexivity|discriminate]. }
  rewrite Hin. cbn [question_loop].
  destruct (String.eqb_spec question ""); [congruence|].
  rewrite get_best_answer_without_tokens by exact Hnone. reflexivity.
Qed.

End Session.

Lemma session_ends_at_empty_line_witness :
  run_question_answering 101 102 sample_exp sample_lower sample_tokenizer
    sample_infer ∅ [] sample_urlparse sample_get_paragraphs sample_perf_counter
    sample_format_2f sample_format_sources
    ["the cat sat"] (World ["who"; ""; "where"] [] 0)
  = (World ["where"]
       ([] ++ ["Context: " +:+ sample_format_sources ["the cat sat"]]
        ++ transcript
             (fun question =>
                get_best_answer 101 102 sample_exp sample_lower sample_tokenizer
                  sample_infer question
                  (load_context sample_urlparse sample_get_paragraphs ["the cat sat"])
                  ∅ [])
             sample_perf_counter sample_format_2f ["who"] 0)
       (0 + 2 * length ["who"]),
     Returned).
Proof.
  apply (session_ends_at_empty_line 101 102 sample_exp sample_lower sample_tokenizer
           sample_infer ∅ [] sample_urlparse sample_get_paragraphs
           sample_perf_counter sample_format_2f sample_format_sources
           ["the cat sat"] ["who"] ["where"] (World ["who"; ""; "where"] [] 0)).
  - vm_compute. discriminate.
  - constructor; [|constructor]. split; [discriminate|].
    exists "the", (1#49). vm_compute. reflexivity.
  - reflexivity.
Defined.

Lemma session_aborts_on_error_witness :
  run_question_answering 101 102 sample_exp sample_lower sample_tokenizer
    sample_infer ∅ [] sample_urlparse sample_get_paragraphs sample_perf_counter
    sample_format_2f sample_format_sources
    ["the cat sat"] (World ["who"; "which one"; "where"] [] 0)
  = (World ["where"]
       ([] ++ ["Context: " +:+ sample_format_sources ["the cat sat"]]
        ++ transcript
             (fun question =>
                get_best_answer 101 102 sample_exp sample_lower sample_tokenizer
                  sample_infer question
                  (load_context sample_urlparse sample_get_paragraphs ["the cat sat"])
                  ∅ [])
             sample_perf_counter sample_format_2f ["who"] 0)
       (S (0 + 2 * length ["who"])),
     Raised ValueError).
Proof.
  apply (session_aborts_on_error 101 102 sample_exp sample_lower sample_tokenizer
           sample_infer ∅ [] sample_urlparse sample_get_paragraphs
           sample_perf_counter sample_format_2f sample_format_sources
           ["the cat sat"] ["who"] "which one" ["where"]
           (World ["who"; "which one"; "where"] [] 0) ValueError).
  - vm_compute. discriminate.
  - constructor; [|constructor]. split; [discriminate|].
    exists "the", (1#49). vm_compute. reflexivity.
  - discriminate.
  - vm_compute. reflexivity.
  - reflexivity.
Defined.

Lemma empty_context_is_reported_witness :
  run_question_answering 101 102 sample_exp sample_lower sample_tokenizer
    sample_infer ∅ [] sample_urlparse sample_get_paragraphs sample_perf_counter
    sample_format_2f sample_format_sources
    [""] (World ["who"] [] 0)
  = (World ["who"]
       ([] ++ ["Context: " +:+ sample_format_sources [""];
               "Error: Empty context or outside paragraphs"])
       0,
     Returned).
Proof.
  apply (empty_context_is_reported 101 102 sample_exp sample_lower sample_tokenizer
           sample_infer ∅ [] sample_urlparse sample_get_paragraphs
           sample_perf_counter sample_format_2f sample_format_sources
           [""] (World ["who"] [] 0)).
  right. reflexivity.
Defined.

Lemma blank_context_aborts_session_witness :
  run_question_answering 101 102 sample_exp sample_lower
    (fun _ _ => ([], [])) sample_infer ∅ [] sample_urlparse sample_get_paragraphs
    sample_perf_counter sample_format_2f sample_format_sources
    ["   "] (World ["who"; "where"] [] 0)
  = (World ["where"] ([] ++ ["Context: " +:+ sample_format_sources ["   "]]) 1,
     Raised ValueError).
Proof.
  apply (blank_context_aborts_session 101 102 sample_exp sample_lower
           (fun _ _ => ([], [])) sample_infer ∅ [] sample_urlparse
           sample_get_paragraphs sample_perf_counter sample_format_2f
           sample_format_sources ["   "] "who" ["where"]
           (World ["who"; "where"] [] 0)).
  - vm_compute. discriminate.
  - reflexivity.
  - discriminate.
  - reflexivity.
Defined.

(** ** The three best classes *)

Lemma last_three {A} (l : list A) :
  Py.slice l (-3) (Z.of_nat (length l)) = drop (length l - 3) l.
Proof.
  unfold Py.slice.
  assert (Ha : Py.slice_bound (length l) (-3) = length l - 3).
  { unfold Py.slice_bound. cbn [Z.ltb Z.compare]. lia. }
  assert (Hb : Py.slice_bound (length l) (Z.of_nat (length l)) = length l).
  { rewrite slice_bound_nonneg by lia. lia. }
  rewrite Ha, Hb. apply take_ge. rewrite length_drop. lia.
Qed.

Lemma take_indices_in_range (a : list Q) (indices : list nat) :
  Forall (fun i => i < length a) indices ->
  take_indices a indices = Ok ((fun i => default 0%Q (a !! i)) <$> indices).
Proof.
  induction 1 as [|i rest Hi _ IH]; [reflexivity|].
  cbn [take_indices]. destruct (lookup_lt_is_Some_2 a i Hi) as [x Hx].
  rewrite (getitem_nat a i x Hx). cbn [mbind result_bind]. rewrite IH.
  cbn. rewrite Hx. reflexivity.
Qed.

(** X17. When [argsort] returns the positions of the softmax values by
    ascending value, [top_indices] holds the positions of the
    [min(3, n)] largest values, largest first and without repetition:
    [top_softmax] returns their values in descending order, and no value
    left out exceeds a value kept. *)
Theorem top_three_are_largest argsort (softmax_result : list Q) :
  sorts_ascending softmax_result (argsort softmax_result) ->
  let n := length softmax_result in
  let top := top_indices argsort softmax_result in
  let value i := default 0%Q (softmax_result !! i) in
  length top = Nat.min 3 n
  /\ NoDup top
  /\ Forall (fun i => i < n) top
  /\ top_softmax argsort softmax_result = Ok (value <$> top)
  /\ (forall a b i j, a <= b -> top !! a = Some i -> top !! b = Some j ->
        (value j <= value i)%Q)
  /\ (forall k i, k < n -> k ∉ top -> i ∈ top -> (value k <= value i)%Q).
Proof.
  intros [Hperm Hasc] n top value.
  set (order := argsort softmax_result) in *.
  assert (Hlen : length order = n)
    by (rewrite Hperm, length_seq; reflexivity).
  assert (Hnodup : NoDup order) by (rewrite Hperm; apply NoDup_seq).
  assert (Hrange : forall i, i ∈ order <-> i < n).
  { intros i. rewrite Hperm, elem_of_seq. unfold n. lia. }
  assert (Htop : top = reverse (drop (n - 3) order)).
  { unfold top, top_indices. fold order. rewrite last_three, Hlen. reflexivity. }
  assert (Hlentop : length top = Nat.min 3 n).
  { rewrite Htop, length_reverse, length_drop, Hlen. lia. }
  assert (Hpos : forall a i, top !! a = Some i ->
            a < Nat.min 3 n /\ order !! (n - S a) = Some i).
  { intros a i Ha. rewrite Htop in Ha.
    apply reverse_lookup_Some in Ha as [Ha Hlt].
    rewrite length_drop, Hlen in Ha, Hlt. rewrite lookup_drop in Ha.
    split; [lia|]. rewrite <- Ha. f_equal. lia. }
  assert (Hin : forall i, i ∈ top -> i ∈ order).
  { intros i Hi. apply list_elem_of_lookup in Hi as [a Ha].
    apply Hpos in Ha as [_ Ha]. apply list_elem_of_lookup. eauto. }
  assert (Hbound : Forall (fun i => i < n) top).
  { apply Forall_forall. intros i Hi. apply Hrange, Hin, Hi. }
  split; [exact Hlentop|].
  split.
  { rewrite Htop, reverse_Permutation.
    rewrite <- (take_drop (n - 3) order) in Hnodup.
    apply NoDup_app in Hnodup as (_ & _ & H). exact H. }
  split; [exact Hbound|].
  split; [apply take_indices_in_range; exact Hbound|].
  split.
  - intros a b i j Hab Ha Hb.
    apply Hpos in Ha as [Ha' Ha]. apply Hpos in Hb as [Hb' Hb].
    apply (Hasc (n - S b) (n - S a) j i); [lia|exact Hb|exact Ha].
  - intros k i Hk Hout Hi.
    apply list_elem_of_lookup in Hi as [a Ha]. apply Hpos in Ha as [Ha' Ha].
    apply Hrange in Hk. apply list_elem_of_lookup in Hk as [c Hc].
    pose proof (lookup_lt_Some _ _ _ Hc) as Hclt. rewrite Hlen in Hclt.
    destruct (Nat.lt_ge_cases c (n - 3)) as [Hlow|Hhigh].
    + apply (Hasc c (n - S a) k i); [lia|exact Hc|exact Ha].
    + exfalso. apply Hout. rewrite Htop. apply elem_of_reverse.
      apply list_elem_of_lookup. exists (c - (n - 3)).
      rewrite lookup_drop. rewrite <- Hc. f_equal. lia.
Qed.

Lemma top_three_are_largest_witness :
  let softmax_result := [1#10; 5#10; 1#20; 3#10; 1#20] in
  let argsort := fun _ : list Q => [2; 4; 0; 3; 1] in
  let n := length softmax_result in
  let top := top_indices argsort softmax_result in
  let value i := default 0%Q (softmax_result !! i) in
  length top = Nat.min 3 n
  /\ NoDup top
  /\ Forall (fun i => i < n) top
  /\ top_softmax argsort softmax_result = Ok (value <$> top)
  /\ (forall a b i j, a <= b -> top !! a = Some i -> top !! b = Some j ->
        (value j <= value i)%Q)
  /\ (forall k i, k < n -> k ∉ top -> i ∈ top -> (value k <= value i)%Q).
Proof.
  apply (top_three_are_largest (fun _ : list Q => [2; 4; 0; 3; 1])
           [1#10; 5#10; 1#20; 3#10; 1#20]).
  split.
  - apply (bool_decide_unpack _). vm_compute. reflexivity.
  - intros a b i j Hab Ha Hb.
    destruct a as [|[|[|[|[|a]]]]]; destruct b as [|[|[|[|[|b]]]]];
      cbn in Ha, Hb; try discriminate; try lia;
      injection Ha as <-; injection Hb as <-;
      apply Qle_bool_iff; reflexivity.
Defined.
